(** * StoreParsePolicy of the VCF validator (validator.hpp)

    A shallow embedding of [opencb::vcf::StoreParsePolicy] and of the
    [Parser] facade that drives it, with the C++ library calls the header
    relies on ([std::stoi], [std::stof], [boost::split], [std::map],
    [std::vector]) written out.

    Conventions.
    - [std::string] is [string]; [std::vector<std::string>] is [list string].
    - [std::map<std::string, T>] is [gmap string T].  [operator[]] is
      [map_subscript]: it default-inserts a missing key, as in C++.
    - [size_t] and [int] are [Z] with the wrap-around written out.
    - A member function is a function from the state it can touch to a
      [result]: normal return, a thrown C++ exception, or [Undefined] for
      an out-of-bounds [std::vector::operator[]]. *)

From Stdlib Require Import ZArith Lia Ascii String List.
From stdpp Require Import base option list strings gmap.

Local Open Scope string_scope.
Local Open Scope Z_scope.

(** ** C++ library calls used by the header *)

Module Cxx.

(** The exceptions that can travel through the header.  Only the three
    [std::logic_error]/[std::runtime_error] descendants below are named
    by the source or raised by the library calls it makes. *)
Inductive exn : Type :=
| InvalidArgument (what : string)   (* std::invalid_argument *)
| OutOfRange (what : string)        (* std::out_of_range *)
| ParsingError (what : string).     (* opencb::vcf::ParsingError *)

(** [std::isspace] in the "C" locale. *)
Definition isspace (c : ascii) : bool :=
  let n := N_of_ascii c in
  (N.eqb n 32 || (N.leb 9 n && N.leb n 13))%bool.

(** [std::isdigit]. *)
Definition isdigit (c : ascii) : bool :=
  let n := N_of_ascii c in (N.leb 48 n && N.leb n 57)%bool.

Definition digit_value (c : ascii) : Z := Z.of_N (N_of_ascii c) - 48.

Fixpoint skip_space (s : string) : string :=
  match s with
  | String c rest => if isspace c then skip_space rest else s
  | EmptyString => s
  end.

(** Value of the longest run of decimal digits at the front of [s],
    continuing the number [acc] read so far. *)
Fixpoint digits_from (acc : Z) (s : string) : Z :=
  match s with
  | String c rest =>
      if isdigit c then digits_from (10 * acc + digit_value c) rest else acc
  | EmptyString => acc
  end.

Definition starts_with_digit (s : string) : bool :=
  match s with
  | String c _ => isdigit c
  | EmptyString => false
  end.

Definition unsigned_prefix (s : string) : option Z :=
  if starts_with_digit s then Some (digits_from 0 s) else None.

(** The subject sequence of [strtol(s, &end, 10)]: white space, an
    optional sign, then decimal digits.  [None] is "no conversion could
    be performed" ([end == s]). *)
Definition strtol_prefix (s : string) : option Z :=
  match skip_space s with
  | String "-" rest => Z.opp <$> unsigned_prefix rest
  | String "+" rest => unsigned_prefix rest
  | rest => unsigned_prefix rest
  end.

(** Case-insensitive test that [s] begins with the three letters given
    in lower case (for [inf] and [nan]). *)
Definition lower (c : ascii) : ascii :=
  let n := N_of_ascii c in
  if (N.leb 65 n && N.leb n 90)%bool then ascii_of_N (n + 32) else c.

Definition starts_with3 (a b c : ascii) (s : string) : bool :=
  match s with
  | String x (String y (String z _)) =>
      (Ascii.eqb (lower x) a && Ascii.eqb (lower y) b
       && Ascii.eqb (lower z) c)%bool
  | _ => false
  end.

(** Whether [strtof] finds a non-empty subject sequence after the
    optional sign: a digit, a radix point followed by a digit, [inf] or
    [nan] (hexadecimal floats start with the digit [0]). *)
Definition float_subject (s : string) : bool :=
  match s with
  | String "." rest => starts_with_digit rest
  | _ => (starts_with_digit s || starts_with3 "i" "n" "f" s
          || starts_with3 "n" "a" "n" s)%bool
  end.

Definition strtof_converts (s : string) : bool :=
  match skip_space s with
  | String "-" rest => float_subject rest
  | String "+" rest => float_subject rest
  | rest => float_subject rest
  end.

(** [boost::split(out, s, boost::is_any_of(sep))] with the default
    [token_compress_off]: cut at every separator character, keep empty
    pieces, always at least one piece. *)
Fixpoint split_on (sep : ascii) (s : string) : list string :=
  match s with
  | EmptyString => [EmptyString]
  | String c rest =>
      if Ascii.eqb c sep then EmptyString :: split_on sep rest
      else match split_on sep rest with
           | piece :: pieces => String c piece :: pieces
           | [] => [String c EmptyString]
           end
  end.

End Cxx.

(** ** Implementation-defined parts of the C++ platform *)

(** Widths of [int] and [size_t], the type [float], the conversion of the
    literal in [quality = 0], and the value [strtof] computes on a string
    that has a subject sequence ([None]: the value is out of the range of
    [float], [errno == ERANGE]). *)
Class Platform : Type := {
  int_bits : nat;
  size_bits : nat;
  float : Type;
  float_of_int : Z -> float;
  strtof_value : string -> option float;
}.

Section Validator.

Context {platform : Platform}.

Import Cxx.

Definition INT_MIN : Z := - 2 ^ (Z.of_nat int_bits - 1).
Definition INT_MAX : Z := 2 ^ (Z.of_nat int_bits - 1) - 1.

(** [std::stoi(s)]: [strtol] in base 10; [std::invalid_argument] when no
    conversion could be performed, [std::out_of_range] when the value does
    not fit an [int].  The message of either exception is the name of the
    function, as in libstdc++. *)
Definition stoi (s : string) : Z + exn :=
  match strtol_prefix s with
  | None => inr (InvalidArgument "stoi")
  | Some z =>
      if ((INT_MIN <=? z) && (z <=? INT_MAX))%bool then inl z
      else inr (OutOfRange "stoi")
  end.

(** [std::stof(s)]. *)
Definition stof (s : string) : float + exn :=
  if strtof_converts s then
    match strtof_value s with
    | Some f => inl f
    | None => inr (OutOfRange "stof")
    end
  else inr (InvalidArgument "stof").

(** [static_cast<size_t>(n)] for an [int] [n]. *)
Definition size_t_of_int (n : Z) : Z := n mod 2 ^ Z.of_nat size_bits.

(** ** Entities (file_structure.hpp)

    validator.hpp only constructs these; their fields are the
    constructor arguments in the order the source passes them.  The last
    constructor argument, the [std::shared_ptr<Source>] back-reference, is
    always [state.source] and is not repeated inside the entity. *)

Inductive MetaEntry : Type :=
| Plain (value : string)
| Scalar (id value : string)
| Structured (id : string) (key_values : gmap string string).

Record Record_ : Type := mkRecord {
  chromosome : string;
  position : Z;
  ids : list string;
  reference_allele : string;
  alternate_alleles : list string;
  quality : float;
  filters : list string;
  info : gmap string string;
  format : list string;
  samples : list string;
}.

Record Source : Type := mkSource {
  version : string;
  meta_entries : list MetaEntry;
  sample_names : list string;
}.

(** What the constructors of file_structure.hpp do with their arguments
    is not part of the header: [Some e] means the constructor throws [e],
    [None] that it returns the entity. *)
Class FileStructure : Type := {
  MetaEntry_ctor : MetaEntry -> option exn;
  Record_ctor : Record_ -> option exn;
}.

Context {file_structure : FileStructure}.

(** ** ParsingState *)

Record ParsingState : Type := mkParsingState {
  n_lines : Z;
  n_columns : Z;
  n_batches : Z;
  cs : Z;
  m_is_valid : bool;
  source : Source;
  records : list Record_;
}.

(** ** StoreParsePolicy: the four private members *)

Record StoreParsePolicy : Type := mkStore {
  m_current_token : string;
  m_line_typeid : string;
  m_grouped_tokens : list string;
  m_line_tokens : gmap string (list string);
}.

(** What a member function of the parser can read and write: the policy
    members ([this]), the parsing state (whose [source] and [records]
    are written through the shared pointers although the reference is
    [const]) and the diagnostics the error policy has surfaced so far. *)
Record world : Type := mkWorld {
  policy : StoreParsePolicy;
  state : ParsingState;
  diagnostics : list string;
}.

Inductive result (A : Type) : Type :=
| Ok (a : A) (w : world)
| Throw (e : exn) (w : world)
| Undefined.
#[global] Arguments Ok {A} a w.
#[global] Arguments Throw {A} e w.
#[global] Arguments Undefined {A}.

Definition M (A : Type) : Type := world -> result A.

Definition ret {A} (a : A) : M A := fun w => Ok a w.

Definition bind {A B} (m : M A) (k : A -> M B) : M B := fun w =>
  match m w with
  | Ok a w' => k a w'
  | Throw e w' => Throw e w'
  | Undefined => Undefined
  end.

Definition throw {A} (e : exn) : M A := fun w => Throw e w.
Definition undefined {A} : M A := fun _ => Undefined.

(** [try { body } catch (std::invalid_argument ex) { handler(ex.what()) }]:
    other exceptions pass through. *)
Definition try_catch_invalid_argument {A} (body : M A)
    (handler : string -> M A) : M A := fun w =>
  match body w with
  | Throw (InvalidArgument what) w' => handler what w'
  | r => r
  end.

Definition lift_exn {A} (r : A + exn) : M A :=
  match r with
  | inl a => ret a
  | inr e => throw e
  end.

Definition get_policy : M StoreParsePolicy := fun w => Ok (policy w) w.

Notation "'let*' x ':=' m 'in' k" := (bind m (fun x => k))
  (at level 10, x name, m at level 100, k at level 200).
Notation "m '>>' k" := (bind m (fun _ => k))
  (at level 90, right associativity).

Definition modify_policy (f : StoreParsePolicy -> StoreParsePolicy) : M unit :=
  fun w => Ok tt (mkWorld (f (policy w)) (state w) (diagnostics w)).
Definition modify_state (f : ParsingState -> ParsingState) : M unit :=
  fun w => Ok tt (mkWorld (policy w) (f (state w)) (diagnostics w)).

Definition set_current_token (t : string) (p : StoreParsePolicy) :=
  mkStore t (m_line_typeid p) (m_grouped_tokens p) (m_line_tokens p).
Definition set_line_typeid (t : string) (p : StoreParsePolicy) :=
  mkStore (m_current_token p) t (m_grouped_tokens p) (m_line_tokens p).
Definition set_grouped_tokens (g : list string) (p : StoreParsePolicy) :=
  mkStore (m_current_token p) (m_line_typeid p) g (m_line_tokens p).
Definition set_line_tokens (m : gmap string (list string))
    (p : StoreParsePolicy) :=
  mkStore (m_current_token p) (m_line_typeid p) (m_grouped_tokens p) m.

Definition set_source (src : Source) (s : ParsingState) :=
  mkParsingState (n_lines s) (n_columns s) (n_batches s) (cs s)
    (m_is_valid s) src (records s).

(** [v[i]] on a [std::vector]: undefined behaviour out of range. *)
Definition vector_at (v : list string) (i : nat) : M string :=
  match v !! i with
  | Some x => ret x
  | None => undefined
  end.

(** [m_line_tokens[k]] as an rvalue: a missing key is inserted with an
    empty vector, which is what is read. *)
Definition map_subscript (k : string) : M (list string) := fun w =>
  match m_line_tokens (policy w) !! k with
  | Some v => Ok v w
  | None =>
      Ok [] (mkWorld
               (set_line_tokens (<[k := []]> (m_line_tokens (policy w)))
                  (policy w))
               (state w) (diagnostics w))
  end.

(** [m_line_tokens[k] = v]. *)
Definition map_assign (k : string) (v : list string) : M unit :=
  modify_policy (fun p => set_line_tokens (<[k := v]> (m_line_tokens p)) p).

(** [std::map::emplace]: no effect when the key is already present. *)
Definition emplace (k v : string) (m : gmap string string)
    : gmap string string :=
  match m !! k with
  | Some _ => m
  | None => <[k := v]> m
  end.

(** Modelled from the spec: the bodies of [ParsingState]'s member
    functions, which the header only declares (section 4.1: the only
    mutation entry points, they never fail themselves). *)
Definition set_version (fileformat : string) : M unit :=
  modify_state (fun s =>
    set_source (mkSource fileformat (meta_entries (source s))
                  (sample_names (source s))) s).

Definition add_meta (meta : MetaEntry) : M unit :=
  modify_state (fun s =>
    set_source (mkSource (version (source s))
                  (meta_entries (source s) ++ [meta])
                  (sample_names (source s))) s).

Definition add_record (record : Record_) : M unit :=
  modify_state (fun s =>
    mkParsingState (n_lines s) (n_columns s) (n_batches s) (cs s)
      (m_is_valid s) (source s) (records s ++ [record])).

Definition set_samples (names : list string) : M unit :=
  modify_state (fun s =>
    set_source (mkSource (version (source s)) (meta_entries (source s))
                  names) s).

(** Running a constructor of file_structure.hpp. *)
Definition new_MetaEntry (m : MetaEntry) : M MetaEntry :=
  match MetaEntry_ctor m with
  | Some e => throw e
  | None => ret m
  end.

Definition new_Record (r : Record_) : M Record_ :=
  match Record_ctor r with
  | Some e => throw e
  | None => ret r
  end.

(** ** StoreParsePolicy: member functions *)

Definition handle_token_begin : M unit :=
  modify_policy (set_current_token "").

Definition handle_token_char (c : ascii) : M unit :=
  modify_policy (fun p =>
    set_current_token (m_current_token p +:+ String c "") p).

Definition handle_token_end : M unit :=
  modify_policy (fun p =>
    set_grouped_tokens (m_grouped_tokens p ++ [m_current_token p]) p).

Definition handle_newline : M unit :=
  modify_policy (fun p => mkStore "" (m_line_typeid p) [] ∅).

Definition handle_fileformat : M unit :=
  let* p := get_policy in set_version (m_current_token p).

Definition handle_meta_typeid : M unit :=
  modify_policy (fun p => set_line_typeid (m_current_token p) p).

(** The overload [handle_meta_typeid(state, type_id)]. *)
Definition handle_meta_typeid_with (type_id : string) : M unit :=
  modify_policy (set_line_typeid type_id).

Definition handle_meta_key : M unit :=
  modify_policy (fun p =>
    set_grouped_tokens (m_grouped_tokens p ++ [m_current_token p]) p).

(** The overload [handle_meta_key(state, key)]. *)
Definition handle_meta_key_with (key : string) : M unit :=
  modify_policy (fun p =>
    set_grouped_tokens (m_grouped_tokens p ++ [key]) p).

Definition handle_meta_value : M unit :=
  modify_policy (fun p =>
    set_grouped_tokens (m_grouped_tokens p ++ [m_current_token p]) p).

(** The loop [for (i = 0; i < size; i += 2) key_values[tokens[i]] =
    tokens[i+1]], two tokens at a time; a last unpaired token would make
    [tokens[i+1]] an out-of-bounds read. *)
Fixpoint key_values_loop (tokens : list string)
    (key_values : gmap string string) : M (gmap string string) :=
  match tokens with
  | [] => ret key_values
  | [_] => undefined
  | k :: v :: rest => key_values_loop rest (<[k := v]> key_values)
  end.

Definition handle_meta_line : M unit :=
  try_catch_invalid_argument
    (let* p := get_policy in
     if decide (m_line_typeid p = "") then
       let* value := vector_at (m_grouped_tokens p) 0 in
       let* meta := new_MetaEntry (Plain value) in
       add_meta meta
     else if decide (length (m_grouped_tokens p) = 1%nat) then
       let* value := vector_at (m_grouped_tokens p) 0 in
       let* meta := new_MetaEntry (Scalar (m_line_typeid p) value) in
       add_meta meta
     else if decide (length (m_grouped_tokens p) `mod` 2 = 0)%nat then
       let* key_values := key_values_loop (m_grouped_tokens p) ∅ in
       let* meta := new_MetaEntry (Structured (m_line_typeid p) key_values) in
       add_meta meta
     else
       (* TODO Throw exception *)
       ret tt)
    (fun what => throw (ParsingError what)).

Definition handle_sample_name : M unit :=
  modify_policy (fun p =>
    set_grouped_tokens (m_grouped_tokens p ++ [m_current_token p]) p).

Definition handle_header_line : M unit :=
  let* p := get_policy in set_samples (m_grouped_tokens p).

Definition handle_column_end (n_columns : Z) : M unit :=
  (let* p := get_policy in
   match n_columns with
   | 1 => map_assign "CHROM" (m_grouped_tokens p)
   | 2 => map_assign "POS" (m_grouped_tokens p)
   | 3 => map_assign "ID" (m_grouped_tokens p)
   | 4 => map_assign "REF" (m_grouped_tokens p)
   | 5 => map_assign "ALT" (m_grouped_tokens p)
   | 6 => map_assign "QUAL" (m_grouped_tokens p)
   | 7 => map_assign "FILTER" (m_grouped_tokens p)
   | 8 => map_assign "INFO" (m_grouped_tokens p)
   | 9 => map_assign "FORMAT" (m_grouped_tokens p)
   | _ =>
       (* Collection of samples *)
       (if decide (m_line_tokens p !! "SAMPLES" = None)
        then map_assign "SAMPLES" []
        else ret tt) >>
       (* Samples are stored as a single string *)
       let* sample := vector_at (m_grouped_tokens p) 0 in
       let* stored := map_subscript "SAMPLES" in
       map_assign "SAMPLES" (stored ++ [sample])
   end) >>
  modify_policy (set_grouped_tokens []).

(** The loop over [m_line_tokens["INFO"]]. *)
Fixpoint info_loop (fields : list string) (info : gmap string string)
    : M (gmap string string) :=
  match fields with
  | [] => ret info
  | field :: rest =>
      let subfields := split_on "=" field in
      if decide (1 < length subfields)%nat then
        let* k := vector_at subfields 0 in
        let* v := vector_at subfields 1 in
        info_loop rest (emplace k v info)
      else
        let* k := vector_at subfields 0 in
        info_loop rest (emplace k "" info)
  end.

Definition handle_body_line : M unit :=
  try_catch_invalid_argument
    ((* Transform the position token into a size_t *)
     let* pos_group := map_subscript "POS" in
     let* pos_token := vector_at pos_group 0 in
     let* pos := lift_exn (stoi pos_token) in
     let position := size_t_of_int pos in
     (* Transform all the quality tokens into floating point numbers *)
     let* quality :=
       try_catch_invalid_argument
         (let* qual_group := map_subscript "QUAL" in
          let* qual_token := vector_at qual_group 0 in
          lift_exn (stof qual_token))
         (fun _ => ret (float_of_int 0)) in
     (* Split the info tokens by the equals (=) symbol *)
     let* info_group := map_subscript "INFO" in
     let* info := info_loop info_group ∅ in
     let* chrom_group := map_subscript "CHROM" in
     let* chrom := vector_at chrom_group 0 in
     let* id_group := map_subscript "ID" in
     let* ref_group := map_subscript "REF" in
     let* ref := vector_at ref_group 0 in
     let* alt_group := map_subscript "ALT" in
     let* filter_group := map_subscript "FILTER" in
     let* format_group := map_subscript "FORMAT" in
     let* samples_group := map_subscript "SAMPLES" in
     let* record :=
       new_Record (mkRecord chrom position id_group ref alt_group quality
                     filter_group info format_group samples_group) in
     add_record record)
    (fun what => throw (ParsingError what)).

Definition current_token : M string :=
  let* p := get_policy in ret (m_current_token p).

(** ** The events a parse policy receives *)

Inductive token_event : Type :=
| TokenBegin
| TokenChar (c : ascii)
| TokenEnd
| Newline
| Fileformat
| MetaTypeid
| MetaTypeidWith (type_id : string)
| MetaKey
| MetaKeyWith (key : string)
| MetaValue
| MetaLine
| SampleName
| HeaderLine
| ColumnEnd (n_columns : Z)
| BodyLine.

Definition store_event (e : token_event) : M unit :=
  match e with
  | TokenBegin => handle_token_begin
  | TokenChar c => handle_token_char c
  | TokenEnd => handle_token_end
  | Newline => handle_newline
  | Fileformat => handle_fileformat
  | MetaTypeid => handle_meta_typeid
  | MetaTypeidWith type_id => handle_meta_typeid_with type_id
  | MetaKey => handle_meta_key
  | MetaKeyWith key => handle_meta_key_with key
  | MetaValue => handle_meta_value
  | MetaLine => handle_meta_line
  | SampleName => handle_sample_name
  | HeaderLine => handle_header_line
  | ColumnEnd n => handle_column_end n
  | BodyLine => handle_body_line
  end.

(** [IgnoreParsePolicy]: the member functions have empty bodies
    ([handle_column_end] is only declared; the Discard policy of the spec
    does nothing on any event). *)
Definition ignore_event (e : token_event) : M unit := ret tt.

Fixpoint store_events (es : list token_event) : M unit :=
  match es with
  | [] => ret tt
  | e :: rest => store_event e >> store_events rest
  end.

(** ** Error policies and configurations *)

Inductive section_kind : Type :=
| FileformatSection | MetaSection | HeaderSection | BodySection.

(** The default arguments of the [handle_*_section_error] declarations. *)
Definition default_message (k : section_kind) : string :=
  match k with
  | FileformatSection => "Error in file format section"
  | MetaSection => "Error in meta-data section"
  | HeaderSection => "Error in header section"
  | BodySection => "Error in body section"
  end.

Inductive parse_policy_kind : Type := UseIgnoreParsePolicy | UseStoreParsePolicy.
Inductive error_policy_kind : Type := UseAbortErrorPolicy | UseReportErrorPolicy.

Record Configuration : Type := mkConfiguration {
  ParsePolicy : parse_policy_kind;
  ErrorPolicy : error_policy_kind;
}.

Definition QuickValidatorCfg := mkConfiguration UseIgnoreParsePolicy UseReportErrorPolicy.
Definition FullValidatorCfg := mkConfiguration UseStoreParsePolicy UseReportErrorPolicy.
Definition ReaderCfg := mkConfiguration UseStoreParsePolicy UseAbortErrorPolicy.

(** Modelled from the spec: the bodies of the two error policies, which
    the header only declares (sections 4.4 and 4.5).  Abort raises a fatal
    failure carrying the message; Report latches the validity flag to
    false and surfaces the message as a diagnostic. *)
Definition section_error (k : error_policy_kind) (sec : section_kind) : M unit :=
  match k with
  | UseAbortErrorPolicy => throw (ParsingError (default_message sec))
  | UseReportErrorPolicy => fun w =>
      Ok tt (mkWorld (policy w)
               (mkParsingState (n_lines (state w)) (n_columns (state w))
                  (n_batches (state w)) (cs (state w)) false
                  (source (state w)) (records (state w)))
               (diagnostics w ++ [default_message sec]))
  end.

(** ** The grammar engine and the Parser facade *)

(** What the engine does when it recognises something: call the parse
    policy, call it at the end of a column with the running column index,
    call the error policy, or update the line and column counters. *)
Inductive action : Type :=
| Emit (e : token_event)
| EmitColumnEnd
| SectionError (sec : section_kind)
| Count (f : Z -> Z -> Z * Z).

(** Modelled from the spec: the grammar engine of validator_detail.hpp,
    which is not part of the header (section 4.6 and section 9: a single
    resumable character-level state machine whose position is the explicit
    state value [cs] kept in the parsing state).  The transition table,
    with the sub-delimiter grammar the spec leaves to the VCF standard, is
    a parameter: for a state value and a character it gives the actions
    fired and the next state value; [at_eof] gives the actions fired by
    [end()]. *)
Record Grammar : Type := mkGrammar {
  transition : Z -> ascii -> list action * Z;
  at_eof : Z -> list action;
}.

Definition set_cs (c : Z) : M unit :=
  modify_state (fun s =>
    mkParsingState (n_lines s) (n_columns s) (n_batches s) c
      (m_is_valid s) (source s) (records s)).

Definition set_counters (f : Z -> Z -> Z * Z) : M unit :=
  modify_state (fun s =>
    let c := f (n_lines s) (n_columns s) in
    mkParsingState (fst c) (snd c) (n_batches s) (cs s)
      (m_is_valid s) (source s) (records s)).

Definition next_batch : M unit :=
  modify_state (fun s =>
    mkParsingState (n_lines s) (n_columns s) (n_batches s + 1) (cs s)
      (m_is_valid s) (source s) (records s)).

Definition policy_event (cfg : Configuration) (e : token_event) : M unit :=
  match ParsePolicy cfg with
  | UseIgnoreParsePolicy => ignore_event e
  | UseStoreParsePolicy => store_event e
  end.

Definition run_action (cfg : Configuration) (a : action) : M unit :=
  match a with
  | Emit e => policy_event cfg e
  | EmitColumnEnd => fun w =>
      policy_event cfg (ColumnEnd (n_columns (state w))) w
  | SectionError sec => section_error (ErrorPolicy cfg) sec
  | Count f => set_counters f
  end.

Fixpoint run_actions (cfg : Configuration) (acts : list action) : M unit :=
  match acts with
  | [] => ret tt
  | a :: rest => run_action cfg a >> run_actions cfg rest
  end.

(** One character of [parse_buffer]. *)
Definition step (g : Grammar) (cfg : Configuration) (c : ascii) : M unit :=
  fun w =>
    let t := transition g (cs (state w)) c in
    (set_cs (snd t) >> run_actions cfg (fst t)) w.

Fixpoint parse_buffer (g : Grammar) (cfg : Configuration) (text : string)
    : M unit :=
  match text with
  | EmptyString => ret tt
  | String c rest => step g cfg c >> parse_buffer g cfg rest
  end.

(** [Parser::parse(text)]: one more batch, then the machine runs over the
    chunk from the state value it was left in. *)
Definition parse (g : Grammar) (cfg : Configuration) (text : string) : M unit :=
  next_batch >> parse_buffer g cfg text.

(** [Parser::end()]. *)
Definition end_ (g : Grammar) (cfg : Configuration) : M unit := fun w =>
  run_actions cfg (at_eof g (cs (state w))) w.

(** [Parser::is_valid()]. *)
Definition is_valid (w : world) : bool := m_is_valid (state w).

(** Feeding a document in pieces: [parse] on each chunk in order; an
    exception leaves the remaining chunks unfed. *)
Fixpoint parse_chunks (g : Grammar) (cfg : Configuration)
    (chunks : list string) : M unit :=
  match chunks with
  | [] => ret tt
  | chunk :: rest => parse g cfg chunk >> parse_chunks g cfg rest
  end.

Definition join_chunks (chunks : list string) : string :=
  fold_right append "" chunks.

(** What a caller can see of a finished run: whether it returned or which
    exception came out, and then the [Source], the record sequence and the
    validity flag ([None] for undefined behaviour). *)
Definition observe (r : result unit)
    : option (option exn * Source * list Record_ * bool) :=
  match r with
  | Ok _ w => Some (None, source (state w), records (state w), is_valid w)
  | Throw e w => Some (Some e, source (state w), records (state w), is_valid w)
  | Undefined => None
  end.

(** ** Pure views of the loops and of the per-line state

    These restate, as plain functions, what the member functions compute;
    the theorems below relate them to the code. *)

(** The remembered group of a column, as [operator[]] reads it. *)
Definition column_group (col : string) (w : world) : list string :=
  default [] (m_line_tokens (policy w) !! col).

(** The first token of a column, if the column was recorded with one. *)
Definition first_token (col : string) (w : world) : option string :=
  m_line_tokens (policy w) !! col ≫= head.

(** The world after [m_line_tokens[k]] was evaluated. *)
Definition touch (k : string) (w : world) : world :=
  match m_line_tokens (policy w) !! k with
  | Some _ => w
  | None =>
      mkWorld (set_line_tokens (<[k := []]> (m_line_tokens (policy w)))
                 (policy w))
        (state w) (diagnostics w)
  end.

(** The world after [handle_body_line] evaluated [m_line_tokens[k]] for
    each column it reads, in the order it reads them. *)
Definition body_columns : list string :=
  ["POS"; "QUAL"; "INFO"; "CHROM"; "ID"; "REF"; "ALT"; "FILTER"; "FORMAT";
   "SAMPLES"].

Definition touch_all (ks : list string) (w : world) : world :=
  fold_left (fun w' k => touch k w') ks w.

(** The inner [try]/[catch] around [std::stof], as a function of the
    quality token. *)
Definition parse_quality (qual_token : string) : float + exn :=
  match stof qual_token with
  | inr (InvalidArgument _) => inl (float_of_int 0)
  | r => r
  end.

(** Construct an entity and hand it to the parsing state, inside the
    [try]/[catch] of the handler. *)
Definition build_meta (m : MetaEntry) : M unit :=
  try_catch_invalid_argument
    (let* meta := new_MetaEntry m in add_meta meta)
    (fun what => throw (ParsingError what)).

Definition build_record (r : Record_) : M unit :=
  try_catch_invalid_argument
    (let* record := new_Record r in add_record record)
    (fun what => throw (ParsingError what)).

(** Key/value tokens two by two. *)
Fixpoint pairs (tokens : list string) : list (string * string) :=
  match tokens with
  | k :: v :: rest => (k, v) :: pairs rest
  | _ => []
  end.

(** The value written last, respectively first, for a key. *)
Fixpoint last_write (k : string) (entries : list (string * string))
    : option string :=
  match entries with
  | [] => None
  | (k', v) :: rest =>
      match last_write k rest with
      | Some v' => Some v'
      | None => if decide (k' = k) then Some v else None
      end
  end.

Fixpoint first_write (k : string) (entries : list (string * string))
    : option string :=
  match entries with
  | [] => None
  | (k', v) :: rest => if decide (k' = k) then Some v else first_write k rest
  end.

(** The shape rule of the spec (section 3): no type tag, Plain with the
    bare value; a type tag and exactly one value token, Scalar; a type tag
    and an even-length token sequence, Structured with the given pairs,
    the last write winning. *)
Definition meta_shape (type_id : string) (tokens : list string)
    : option MetaEntry :=
  if decide (type_id = "") then
    match tokens with
    | value :: _ => Some (Plain value)
    | [] => None
    end
  else
    match tokens with
    | [value] => Some (Scalar type_id value)
    | _ =>
        if Nat.even (length tokens)
        then Some (Structured type_id (list_to_map (reverse (pairs tokens))))
        else None
    end.

(** Text before the first separator, and text after it if there is one. *)
Fixpoint before (sep : ascii) (s : string) : string :=
  match s with
  | EmptyString => EmptyString
  | String c rest =>
      if Ascii.eqb c sep then EmptyString else String c (before sep rest)
  end.

Fixpoint after (sep : ascii) (s : string) : option string :=
  match s with
  | EmptyString => None
  | String c rest => if Ascii.eqb c sep then Some rest else after sep rest
  end.

(** The INFO entry of a subtoken in the spec's words: split on the first
    [=], the value is everything after it. *)
Definition first_eq_entry (field : string) : string * string :=
  (before "=" field, default "" (after "=" field)).

(** The INFO entry the loop computes: the first two pieces of the
    subtoken cut at every [=]. *)
Definition info_entry (field : string) : string * string :=
  (before "=" field,
   match after "=" field with
   | Some rest => before "=" rest
   | None => ""
   end).

Definition info_fold (fields : list string) (info : gmap string string)
    : gmap string string :=
  fold_left (fun acc field =>
               emplace (fst (info_entry field)) (snd (info_entry field)) acc)
    fields info.

(** The [Record] that [handle_body_line] constructs from the column map,
    given the converted position and quality. *)
Definition body_record (w : world) (chrom : string) (pos : Z) (ref : string)
    (q : float) : Record_ :=
  mkRecord chrom (size_t_of_int pos) (column_group "ID" w) ref
    (column_group "ALT" w) q (column_group "FILTER" w)
    (info_fold (column_group "INFO" w) ∅) (column_group "FORMAT" w)
    (column_group "SAMPLES" w).

(** The fixed column names by 1-based position. *)
Definition column_name (n : Z) : option string :=
  match n with
  | 1 => Some "CHROM" | 2 => Some "POS" | 3 => Some "ID"
  | 4 => Some "REF" | 5 => Some "ALT" | 6 => Some "QUAL"
  | 7 => Some "FILTER" | 8 => Some "INFO" | 9 => Some "FORMAT"
  | _ => None
  end.

Definition with_column (k : string) (v : list string) (w : world) : world :=
  mkWorld (mkStore (m_current_token (policy w)) (m_line_typeid (policy w)) []
             (<[k := v]> (m_line_tokens (policy w))))
    (state w) (diagnostics w).

(** The verbatim text of a column whose captured sub-tokens are [g],
    written with the sub-delimiter [sep] between them. *)
Definition column_text (sep : string) (g : list string) : string :=
  String.concat sep g.

Definition fixed_columns : list string :=
  ["CHROM"; "POS"; "ID"; "REF"; "ALT"; "QUAL"; "FILTER"; "INFO"; "FORMAT"].

Definition indexed_columns : list string := ["POS"; "QUAL"; "CHROM"; "REF"].

(** Every column of [cols] was recorded with at least one token. *)
Definition columns_captured (cols : list string) (w : world) : bool :=
  forallb (fun col => bool_decide (is_Some (first_token col w))) cols.

(** Whether the element reads of [handle_body_line] that are reached are
    all in bounds: POS first; QUAL when the position converts; CHROM and
    REF unless [std::stof] left through [std::out_of_range]. *)
Definition body_line_in_bounds (w : world) : bool :=
  match first_token "POS" w with
  | None => false
  | Some pos_token =>
      match stoi pos_token with
      | inr _ => true
      | inl _ =>
          match first_token "QUAL" w with
          | None => false
          | Some qual_token =>
              match stof qual_token with
              | inr (OutOfRange _) => true
              | _ =>
                  bool_decide (is_Some (first_token "CHROM" w))
                  && bool_decide (is_Some (first_token "REF" w))
              end
          end
      end
  end.

(** ** Event sequences

    The calls a caller makes for a token, a column, a metadata line or a
    header line, as lists of events for [store_events]. *)

Fixpoint char_events (s : string) : list token_event :=
  match s with
  | EmptyString => []
  | String c rest => TokenChar c :: char_events rest
  end.

(** A token read into the buffer: begin, then its characters. *)
Definition capture (s : string) : list token_event :=
  TokenBegin :: char_events s.

(** A token read and pushed to the group with [handle_token_end]. *)
Definition token_events (s : string) : list token_event :=
  capture s ++ [TokenEnd].

Definition tokens_events (tokens : list string) : list token_event :=
  concat (map token_events tokens).

(** The tokens of a column, then the end of column [n]. *)
Definition column_events (n : Z) (tokens : list string) : list token_event :=
  tokens_events tokens ++ [ColumnEnd n].

(** Sample columns numbered from [n] on, each given as its first token
    and the tokens after it. *)
Fixpoint sample_columns_events (n : Z) (cols : list (string * list string))
    : list token_event :=
  match cols with
  | [] => []
  | (first, others) :: rest =>
      column_events n (first :: others) ++ sample_columns_events (n + 1) rest
  end.

(** The nine fixed columns of a body line, each with its tokens, then
    the sample columns, then the end of the line. *)
Definition fixed_columns_events
    (chrom pos id ref alt qual filter info fmt : list string)
    : list token_event :=
  (column_events 1 chrom ++ column_events 2 pos ++ column_events 3 id
   ++ column_events 4 ref ++ column_events 5 alt ++ column_events 6 qual
   ++ column_events 7 filter ++ column_events 8 info
   ++ column_events 9 fmt)%list.

Definition body_line_events
    (chrom pos id ref alt qual filter info fmt : list string)
    (sample_cols : list (string * list string)) : list token_event :=
  (fixed_columns_events chrom pos id ref alt qual filter info fmt
   ++ sample_columns_events 10 sample_cols ++ [BodyLine])%list.

(** The column map after the nine fixed columns were stored over [base]. *)
Definition fixed_map (chrom pos id ref alt qual filter info fmt : list string)
    (base : gmap string (list string)) : gmap string (list string) :=
  <["FORMAT" := fmt]> (<["INFO" := info]> (<["FILTER" := filter]>
    (<["QUAL" := qual]> (<["ALT" := alt]> (<["REF" := ref]>
      (<["ID" := id]> (<["POS" := pos]> (<["CHROM" := chrom]> base)))))))).

(** A key and its value in a structured metadata line. *)
Definition meta_pair_events (p : string * string) : list token_event :=
  capture (fst p) ++ [MetaKey] ++ capture (snd p) ++ [MetaValue].

(** A metadata line [##tag=<k1=v1,...>]. *)
Definition structured_line_events (tag : string)
    (entries : list (string * string)) : list token_event :=
  capture tag ++ [MetaTypeid]
  ++ concat (map meta_pair_events entries) ++ [MetaLine].

(** The same line when the caller supplies the type tag and the keys
    directly, through the two-argument overloads. *)
Definition meta_pair_events_with (p : string * string) : list token_event :=
  MetaKeyWith (fst p) :: (capture (snd p) ++ [MetaValue])%list.

Definition structured_line_events_with (tag : string)
    (entries : list (string * string)) : list token_event :=
  (MetaTypeidWith tag
   :: concat (map meta_pair_events_with entries) ++ [MetaLine])%list.

(** A metadata line with a single value, [##tag=value] when a type tag
    was read before it and [##value] otherwise. *)
Definition value_line_events (value : string) : list token_event :=
  capture value ++ [MetaValue; MetaLine].

(** The header line: each sample name is read and pushed with
    [handle_sample_name]. *)
Definition header_line_events (names : list string) : list token_event :=
  (concat (map (fun name => capture name ++ [SampleName])%list names)
   ++ [HeaderLine])%list.

Definition flatten_pairs (entries : list (string * string)) : list string :=
  concat (map (fun p => [fst p; snd p]) entries).

(** The four member functions that push the buffer onto the group. *)
Definition pushes (e : token_event) : Prop :=
  e = TokenEnd \/ e = MetaKey \/ e = MetaValue \/ e = SampleName.

(** ** Several lines

    Metadata lines given by their type tag and pairs, body lines given by
    their column groups; every line is followed by a newline. *)

Definition meta_line_entry (l : string * list (string * string))
    : MetaEntry :=
  Structured (fst l) (list_to_map (reverse (snd l))).

Definition meta_lines_events (lines : list (string * list (string * string)))
    : list token_event :=
  concat (map (fun l => structured_line_events (fst l) (snd l) ++ [Newline])%list
            lines).

Record body_line : Type := mkBodyLine {
  chrom_tokens : string * list string;
  pos_tokens : string * list string;
  id_tokens : list string;
  ref_tokens : string * list string;
  alt_tokens : list string;
  qual_tokens : string * list string;
  filter_tokens : list string;
  info_tokens : list string;
  format_tokens : list string;
  sample_tokens : list (string * list string);
}.

Definition group_of (p : string * list string) : list string :=
  fst p :: snd p.

Definition line_events (l : body_line) : list token_event :=
  (body_line_events (group_of (chrom_tokens l)) (group_of (pos_tokens l))
     (id_tokens l) (group_of (ref_tokens l)) (alt_tokens l)
     (group_of (qual_tokens l)) (filter_tokens l) (info_tokens l)
     (format_tokens l) (sample_tokens l)
   ++ [Newline])%list.

Definition body_lines_events (lines : list body_line) : list token_event :=
  concat (map line_events lines).

(** The Record of a line whose position and quality convert. *)
Definition line_record (l : body_line) : option Record_ :=
  match stoi (fst (pos_tokens l)), parse_quality (fst (qual_tokens l)) with
  | inl n, inl q =>
      Some (mkRecord (fst (chrom_tokens l)) (size_t_of_int n) (id_tokens l)
              (fst (ref_tokens l)) (alt_tokens l) q (filter_tokens l)
              (info_fold (info_tokens l) ∅) (format_tokens l)
              (map fst (sample_tokens l)))
  | _, _ => None
  end.

(** The policy with another token buffer and group. *)
Definition with_tokens (token : string) (group : list string) (w : world)
    : world :=
  mkWorld (mkStore token (m_line_typeid (policy w)) group
             (m_line_tokens (policy w)))
    (state w) (diagnostics w).

(** Whether a character occurs in a string. *)
Fixpoint occurs (c : ascii) (s : string) : bool :=
  match s with
  | EmptyString => false
  | String c' rest => (Ascii.eqb c' c || occurs c rest)%bool
  end.

(** The same world with another batch count, and a member function that
    neither reads nor writes the batch count. *)
Definition with_batches (b : Z) (w : world) : world :=
  mkWorld (policy w)
    (mkParsingState (n_lines (state w)) (n_columns (state w)) b
       (cs (state w)) (m_is_valid (state w)) (source (state w))
       (records (state w)))
    (diagnostics w).

Definition result_with_batches {A} (b : Z) (r : result A) : result A :=
  match r with
  | Ok a w => Ok a (with_batches b w)
  | Throw e w => Throw e (with_batches b w)
  | Undefined => Undefined
  end.

Definition batch_blind {A} (m : M A) : Prop :=
  forall b w, m (with_batches b w) = result_with_batches b (m w).

End Validator.

Notation "'let*' x ':=' m 'in' k" := (bind m (fun x => k))
  (at level 10, x name, m at level 100, k at level 200).
Notation "m '>>' k" := (bind m (fun _ => k))
  (at level 90, right associativity).

(** ** The IEEE 754 binary32 [float] and glibc's [strtof]

    The platform on which the definitions are run on explicit inputs:
    [float] is the binary32 format, conversions round to nearest, ties to
    even, and [strtof] reports a value of magnitude too large for a
    [float], or too small to be kept exactly, with [errno == ERANGE]. *)

Module Binary32.

(** [Finite s m e] is the number [m * 2 ^ e] with the sign [s]: a normal
    number has [2 ^ 23 <= m < 2 ^ 24] and [-149 <= e <= 104], a subnormal
    one [m < 2 ^ 23] and [e = -149]. *)
Inductive binary32 : Type :=
| Zero (negative : bool)
| Finite (negative : bool) (m : positive) (e : Z)
| Infinity (negative : bool)
| NaN.

(** [floor (log2 (num / den))] for positive [num] and [den]. *)
Definition floor_log2 (num den : Z) : Z :=
  let d := Z.log2 num - Z.log2 den in
  let reached :=
    if 0 <=? d then den * 2 ^ d <=? num else den <=? num * 2 ^ (- d) in
  if reached then d else d - 1.

(** [n / d] rounded to the nearest integer, ties to even, and whether
    the quotient was inexact. *)
Definition round_nearest_even (n d : Z) : Z * bool :=
  let q := n / d in
  let r := n mod d in
  let up :=
    match 2 * r ?= d with
    | Gt => true
    | Eq => Z.odd q
    | Lt => false
    end in
  (if up then q + 1 else q, negb (r =? 0)).

(** [num / (den * 2 ^ e)] rounded to an integer. *)
Definition rounded_at (num den e : Z) : Z * bool :=
  if 0 <=? e then round_nearest_even num (den * 2 ^ e)
  else round_nearest_even (num * 2 ^ (- e)) den.

(** Tininess after rounding, as on x86-64: [num / den], rounded to 24
    bits with no bound on the exponent, is below the least normal number
    [2 ^ -126]. *)
Definition tiny (num den : Z) : bool :=
  let l := floor_log2 num den in
  ((l <? -126)
   && negb ((l =? -127) && (fst (rounded_at num den (l - 23)) =? 2 ^ 24)))%bool.

(** The [float] nearest to [num / den] ([0 <= num], [0 < den]), or [None]
    when [strtof] would set [ERANGE]: the rounded value is beyond the
    largest finite [float], or the value is tiny and its rounding
    inexact. *)
Definition round (negative : bool) (num den : Z) : option binary32 :=
  if num =? 0 then Some (Zero negative)
  else
    let e := Z.max (floor_log2 num den - 23) (-149) in
    let '(m, inexact) := rounded_at num den e in
    let '(m, e) := if m =? 2 ^ 24 then (2 ^ 23, e + 1) else (m, e) in
    if 104 <? e then None
    else if (tiny num den && inexact)%bool then None
    else
      match m with
      | Zpos p => Some (Finite negative p e)
      | _ => None
      end.

(** The conversion of an [int] to [float]. *)
Definition of_Z (z : Z) : binary32 :=
  match z with
  | Z0 => Zero false
  | Zpos _ => default (Infinity false) (round false z 1)
  | Zneg p => default (Infinity true) (round true (Zpos p) 1)
  end.

Definition isxdigit (c : ascii) : bool :=
  let n := N_of_ascii (Cxx.lower c) in
  (Cxx.isdigit c || (N.leb 97 n && N.leb n 102))%bool.

Definition xdigit_value (c : ascii) : Z :=
  if Cxx.isdigit c then Cxx.digit_value c
  else Z.of_N (N_of_ascii (Cxx.lower c)) - 87.

(** The longest run of digits at the front of [s] in the given base:
    the number read, continuing [acc], the count of digits added to
    [count], and the rest of [s]. *)
Fixpoint read_digits (is_digit : ascii -> bool) (value : ascii -> Z)
    (base acc count : Z) (s : string) : Z * Z * string :=
  match s with
  | String c rest =>
      if is_digit c
      then read_digits is_digit value base (base * acc + value c)
             (count + 1) rest
      else (acc, count, s)
  | EmptyString => (acc, count, s)
  end.

(** Digits with an optional radix point among them: the number the
    digits spell without the point, how many digits there are, how many
    of them follow the point, and the rest of [s]. *)
Definition read_significand (is_digit : ascii -> bool) (value : ascii -> Z)
    (base : Z) (s : string) : Z * Z * Z * string :=
  let '(whole, n_whole, rest) := read_digits is_digit value base 0 0 s in
  match rest with
  | String "." tail =>
      let '(all, n_fraction, rest') :=
        read_digits is_digit value base whole 0 tail in
      (all, n_whole + n_fraction, n_fraction, rest')
  | _ => (whole, n_whole, 0, rest)
  end.

(** An exponent part: the marker letter ([e] or [p], either case), an
    optional sign and decimal digits; 0 when [s] does not begin with
    one. *)
Definition read_exponent (marker : ascii) (s : string) : Z :=
  match s with
  | String c rest =>
      if Ascii.eqb (Cxx.lower c) marker then
        match rest with
        | String "-" ds =>
            if Cxx.starts_with_digit ds then - Cxx.digits_from 0 ds else 0
        | String "+" ds =>
            if Cxx.starts_with_digit ds then Cxx.digits_from 0 ds else 0
        | ds => if Cxx.starts_with_digit ds then Cxx.digits_from 0 ds else 0
        end
      else 0
  | EmptyString => 0
  end.

(** [significand * base ^ exponent], rounded. *)
Definition scaled (negative : bool) (significand base exponent : Z)
    : option binary32 :=
  if 0 <=? exponent then round negative (significand * base ^ exponent) 1
  else round negative significand (base ^ (- exponent)).

Definition decimal (negative : bool) (s : string) : option binary32 :=
  let '(d, _, n_fraction, rest) :=
    read_significand Cxx.isdigit Cxx.digit_value 10 s in
  scaled negative d 10 (read_exponent "e" rest - n_fraction).

(** The digits after [0x]: a hexadecimal significand and a binary
    exponent; with no hexadecimal digit there, only the [0] before the
    [x] is converted. *)
Definition hexadecimal (negative : bool) (s : string) : option binary32 :=
  let '(h, n_digits, n_fraction, rest) :=
    read_significand isxdigit xdigit_value 16 s in
  if 0 <? n_digits
  then scaled negative h 2 (read_exponent "p" rest - 4 * n_fraction)
  else Some (Zero negative).

(** The subject sequence after the sign. *)
Definition magnitude (negative : bool) (s : string) : option binary32 :=
  if Cxx.starts_with3 "i" "n" "f" s then Some (Infinity negative)
  else if Cxx.starts_with3 "n" "a" "n" s then Some NaN
  else
    match s with
    | String "0" (String x rest) =>
        if Ascii.eqb (Cxx.lower x) "x" then hexadecimal negative rest
        else decimal negative s
    | _ => decimal negative s
    end.

(** The value of [strtof(s, &end)] on a string with a subject sequence;
    [None] is [errno == ERANGE]. *)
Definition strtof (s : string) : option binary32 :=
  match Cxx.skip_space s with
  | String "-" rest => magnitude true rest
  | String "+" rest => magnitude false rest
  | rest => magnitude false rest
  end.

End Binary32.

(** ** A concrete platform and concrete per-line states

    Used to run the definitions on explicit inputs: 32-bit [int], 64-bit
    [size_t], binary32 [float] with the [strtof] of glibc; the
    constructors of file_structure.hpp accept every argument. *)

Definition lp64 : Platform := {|
  int_bits := 32;
  size_bits := 64;
  float := Binary32.binary32;
  float_of_int := Binary32.of_Z;
  strtof_value := Binary32.strtof;
|}.

Definition lenient : @FileStructure lp64 := {|
  MetaEntry_ctor := fun _ => None;
  Record_ctor := fun _ => None;
|}.

(** Constructors that reject an empty bare value and an empty
    chromosome with [std::invalid_argument], to run the paths on which a
    constructor throws. *)
Definition strict : @FileStructure lp64 := {|
  MetaEntry_ctor := fun m =>
    match m with
    | Plain "" => Some (Cxx.InvalidArgument "empty value")
    | _ => None
    end;
  Record_ctor := fun r =>
    match @chromosome lp64 r with
    | "" => Some (Cxx.InvalidArgument "empty chromosome")
    | _ => None
    end;
|}.

Section Samples.

#[local] Existing Instance lp64.
#[local] Existing Instance lenient.

Definition blank_policy : StoreParsePolicy := mkStore "" "" [] ∅.

Definition blank_state : ParsingState :=
  mkParsingState 0 0 0 0 true (mkSource "" [] []) [].

Definition world_of (p : StoreParsePolicy) : world := mkWorld p blank_state [].

Definition line_of (cols : list (string * list string)) : world :=
  world_of (mkStore "" "" [] (list_to_map cols)).

(** A body line [1  100  rs1  A  T  .  PASS  DP=10  GT  0|1]. *)
Definition sample_line : list (string * list string) :=
  [("CHROM", ["1"]); ("POS", ["100"]); ("ID", ["rs1"]); ("REF", ["A"]);
   ("ALT", ["T"]); ("QUAL", ["."]); ("FILTER", ["PASS"]);
   ("INFO", ["DP=10"]); ("FORMAT", ["GT"]); ("SAMPLES", ["0|1"])].

(** The same line with another column group in place of one. *)
Definition with_group (col : string) (g : list string)
    (cols : list (string * list string)) : list (string * list string) :=
  (col, g) :: cols.

(** The events of a meta line [##x] with no type tag, after a newline. *)
Definition plain_meta_events : list token_event :=
  [TokenBegin; TokenChar "x"; MetaValue; MetaLine].

End Samples.

(** * Facts about the C++ library calls *)

Example strtol_prefix_signed : Cxx.strtol_prefix "  -52x" = Some (-52).
Proof. reflexivity. Qed.

Example strtol_prefix_dot : Cxx.strtol_prefix "." = None.
Proof. reflexivity. Qed.

Example strtof_converts_dot : Cxx.strtof_converts "." = false.
Proof. reflexivity. Qed.

Example strtof_converts_fraction : Cxx.strtof_converts " -.5e3" = true.
Proof. reflexivity. Qed.

Example strtof_converts_nan : Cxx.strtof_converts "NaN" = true.
Proof. reflexivity. Qed.

(** [strtof] on binary32: the text after the number is ignored, the
    value is rounded to 24 bits, ties to even, and a value no [float] can
    hold, or one too small to be kept exactly, is [ERANGE]. *)
Example strtof_trailing_text :
  Binary32.strtof "12abc" = Some (Binary32.Finite false 12582912 (-20)).
Proof. reflexivity. Qed.

Example strtof_tenth :
  Binary32.strtof "0.1" = Some (Binary32.Finite false 13421773 (-27)).
Proof. reflexivity. Qed.

Example strtof_ties_to_even :
  Binary32.strtof "16777217" = Some (Binary32.Finite false 8388608 1) /\
  Binary32.strtof "16777219" = Some (Binary32.Finite false 8388610 1).
Proof. split; reflexivity. Qed.

Example strtof_largest :
  Binary32.strtof "3.4028235e38"
  = Some (Binary32.Finite false 16777215 104) /\
  Binary32.strtof "3.4028236e38" = None /\
  Binary32.strtof "1e40" = None.
Proof. repeat split; reflexivity. Qed.

Example strtof_smallest :
  Binary32.strtof "0x1p-149" = Some (Binary32.Finite false 1 (-149)) /\
  Binary32.strtof "0x1p-150" = None /\
  Binary32.strtof "1e-40" = None.
Proof. repeat split; reflexivity. Qed.

Example strtof_hexadecimal :
  Binary32.strtof "0x.8p1" = Some (Binary32.Finite false 8388608 (-23)) /\
  Binary32.strtof "0xg" = Some (Binary32.Zero false).
Proof. split; reflexivity. Qed.

Example strtof_special :
  Binary32.strtof "-Infinity" = Some (Binary32.Infinity true) /\
  Binary32.strtof "nan(1)" = Some Binary32.NaN /\
  Binary32.strtof "-0.0" = Some (Binary32.Zero true).
Proof. repeat split; reflexivity. Qed.

Example of_Z_rounds :
  Binary32.of_Z 0 = Binary32.Zero false /\
  Binary32.of_Z (-16777217) = Binary32.Finite true 8388608 1.
Proof. split; reflexivity. Qed.

(** The rounded quotient is a nearest integer, and is exact when the
    division is. *)
Lemma round_nearest_even_nearest n d :
  0 <= n -> 0 < d ->
  2 * Z.abs (fst (Binary32.round_nearest_even n d) * d - n) <= d /\
  (snd (Binary32.round_nearest_even n d) = false ->
   fst (Binary32.round_nearest_even n d) * d = n).
Proof.
  intros Hn Hd. unfold Binary32.round_nearest_even. cbn [fst snd].
  pose proof (Z.div_mod n d ltac:(lia)) as Hdiv.
  pose proof (Z.mod_pos_bound n d Hd) as Hmod.
  rewrite (Z.mul_comm d) in Hdiv.
  generalize dependent (n mod d). generalize dependent (n / d).
  intros q r Hdiv Hmod.
  split.
  - destruct (Z.compare_spec (2 * r) d); [destruct (Z.odd q)|..]; lia.
  - intros Hexact. apply negb_false_iff, Z.eqb_eq in Hexact.
    destruct (Z.compare_spec (2 * r) d); lia.
Qed.

(** [floor_log2 num den] is the exponent of the power of two at or just
    below [num / den]. *)
Lemma floor_log2_spec num den :
  0 < num -> 0 < den ->
  let l := Binary32.floor_log2 num den in
  (0 <= l -> den * 2 ^ l <= num < den * 2 ^ (l + 1)) /\
  (l < 0 -> den <= num * 2 ^ (- l) < 2 * den).
Proof.
  intros Hnum Hden. unfold Binary32.floor_log2.
  pose proof (Z.log2_spec num Hnum) as Ha.
  pose proof (Z.log2_spec den Hden) as Hb.
  pose proof (Z.log2_nonneg num) as Ha0.
  pose proof (Z.log2_nonneg den) as Hb0.
  generalize dependent (Z.log2 num). generalize dependent (Z.log2 den).
  intros b Hb Hb0 a Ha Ha0. cbn zeta.
  rewrite Z.pow_succ_r in Ha, Hb by assumption.
  destruct (Z.leb_spec 0 (a - b)) as [Hd|Hd].
  - assert (Hpow : 2 ^ a = 2 ^ b * 2 ^ (a - b)).
    { rewrite <- Z.pow_add_r by lia. f_equal. lia. }
    pose proof (Z.pow_pos_nonneg 2 (a - b) ltac:(lia) Hd) as Hpos.
    destruct (Z.leb_spec (den * 2 ^ (a - b)) num) as [Hle|Hlt].
    + split; [|lia]. intros _. split; [exact Hle|].
      replace (a - b + 1) with (Z.succ (a - b)) by lia.
      rewrite Z.pow_succ_r by lia. nia.
    + split.
      * intros Hl. replace (a - b - 1 + 1) with (a - b) by lia.
        split; [|exact Hlt].
        assert (Hhalf : 2 ^ (a - b) = 2 * 2 ^ (a - b - 1)).
        { rewrite <- Z.pow_succ_r by lia. f_equal. lia. }
        pose proof (Z.pow_pos_nonneg 2 (a - b - 1) ltac:(lia) Hl). nia.
      * intros Hl. assert (a - b = 0) as Hz by lia.
        rewrite Hz in *. replace (- (0 - 1)) with 1 by lia.
        change (2 ^ 0) with 1 in *. change (2 ^ 1) with 2. nia.
  - assert (Hpow : 2 ^ b = 2 ^ a * 2 ^ (- (a - b))).
    { rewrite <- Z.pow_add_r by lia. f_equal. lia. }
    pose proof (Z.pow_pos_nonneg 2 (- (a - b)) ltac:(lia) ltac:(lia)) as Hpos.
    destruct (Z.leb_spec den (num * 2 ^ (- (a - b)))) as [Hle|Hlt].
    + split; [lia|]. intros _. split; [exact Hle|]. nia.
    + split; [lia|]. intros _.
      replace (- (a - b - 1)) with (Z.succ (- (a - b))) by lia.
      rewrite Z.pow_succ_r by lia. split; nia.
Qed.

Lemma round_nearest_even_between n d lo hi :
  0 < d -> lo * d <= n < hi * d ->
  lo <= fst (Binary32.round_nearest_even n d) <= hi.
Proof.
  intros Hd [Hlo Hhi]. unfold Binary32.round_nearest_even. cbn [fst].
  pose proof (Z.div_mod n d ltac:(lia)) as Hdiv.
  pose proof (Z.mod_pos_bound n d Hd) as Hmod.
  rewrite (Z.mul_comm d) in Hdiv.
  generalize dependent (n mod d). generalize dependent (n / d).
  intros q r Hdiv Hmod.
  assert (lo <= q < hi) by nia.
  destruct (2 * r ?= d); [destruct (Z.odd q)|..]; lia.
Qed.

Lemma pow2_add a b : 0 <= a -> 0 <= b -> 2 ^ (a + b) = 2 ^ a * 2 ^ b.
Proof. intros. apply Z.pow_add_r; assumption. Qed.

Lemma pow2_pos a : 0 <= a -> 0 < 2 ^ a.
Proof. intros. apply Z.pow_pos_nonneg; lia. Qed.

(** The significand rounded at an exponent no less than that of the
    24-bit form is at most [2 ^ 24], and at exactly that exponent at
    least [2 ^ 23]. *)
Lemma rounded_at_bounds num den e :
  0 < num -> 0 < den ->
  Binary32.floor_log2 num den - 23 <= e ->
  0 <= fst (Binary32.rounded_at num den e) <= 2 ^ 24 /\
  (e = Binary32.floor_log2 num den - 23 ->
   2 ^ 23 <= fst (Binary32.rounded_at num den e)).
Proof.
  intros Hnum Hden He.
  pose proof (floor_log2_spec num den Hnum Hden) as Hspec. cbn zeta in Hspec.
  generalize dependent (Binary32.floor_log2 num den). intros l He [Hl0 Hl1].
  unfold Binary32.rounded_at.
  destruct (Z.leb_spec 0 e) as [He0|He0].
  - pose proof (pow2_pos e He0) as Hpe.
    assert (Hup : num < 2 ^ 24 * (den * 2 ^ e)).
    { destruct (Z_le_gt_dec 0 l) as [Hl|Hl].
      - destruct (Hl0 Hl) as [_ Hhi].
        assert (Hle : 2 ^ (l + 1) <= 2 ^ (e + 24))
          by (apply Z.pow_le_mono_r; lia).
        rewrite (pow2_add e 24) in Hle by lia. nia.
      - destruct (Hl1 ltac:(lia)) as [_ Hhi].
        pose proof (pow2_pos (- l) ltac:(lia)). nia. }
    split.
    + apply round_nearest_even_between; [nia|]. split; [nia|exact Hup].
    + intros ->.
      apply round_nearest_even_between with (hi := 2 ^ 24); [nia|].
      split; [|exact Hup].
      destruct (Hl0 ltac:(lia)) as [Hlo _].
      replace l with (l - 23 + 23) in Hlo at 1 by lia.
      rewrite pow2_add in Hlo by lia. nia.
  - pose proof (pow2_pos (- e) ltac:(lia)) as Hpe.
    assert (Hup : num * 2 ^ (- e) < 2 ^ 24 * den).
    { destruct (Z_le_gt_dec 0 l) as [Hl|Hl].
      - destruct (Hl0 Hl) as [_ Hhi].
        assert (Hle : 2 ^ (l + 1 + - e) <= 2 ^ 24)
          by (apply Z.pow_le_mono_r; lia).
        rewrite pow2_add in Hle by lia.
        pose proof (pow2_pos (l + 1) ltac:(lia)). nia.
      - destruct (Hl1 ltac:(lia)) as [_ Hhi].
        assert (Hle : 2 ^ (- e) <= 2 ^ (23 + - l))
          by (apply Z.pow_le_mono_r; lia).
        rewrite pow2_add in Hle by lia.
        pose proof (pow2_pos (- l) ltac:(lia)). nia. }
    split.
    + apply round_nearest_even_between; [lia|]. split; [nia|exact Hup].
    + intros ->.
      apply round_nearest_even_between with (hi := 2 ^ 24); [lia|].
      split; [|exact Hup].
      destruct (Z_le_gt_dec 0 l) as [Hl|Hl].
      * destruct (Hl0 Hl) as [Hlo _].
        assert (Hsplit : 2 ^ 23 = 2 ^ l * 2 ^ (- (l - 23)))
          by (rewrite <- pow2_add by lia; f_equal; lia).
        rewrite Hsplit. nia.
      * destruct (Hl1 ltac:(lia)) as [Hlo _].
        replace (- (l - 23)) with (- l + 23) by lia.
        rewrite pow2_add by lia. nia.
Qed.

(** Every finite result of [round] is in canonical form: a 24-bit
    significand with an exponent in range, normal or subnormal. *)
Lemma round_canonical negative num den f :
  0 < num -> 0 < den ->
  Binary32.round negative num den = Some f ->
  exists m e,
    f = Binary32.Finite negative m e /\
    Z.pos m < 2 ^ 24 /\ -149 <= e <= 104 /\
    (2 ^ 23 <= Z.pos m \/ e = -149).
Proof.
  intros Hnum Hden. unfold Binary32.round.
  destruct (Z.eqb_spec num 0) as [|_]; [lia|].
  set (l := Binary32.floor_log2 num den).
  assert (He : l - 23 <= Z.max (l - 23) (-149)) by lia.
  destruct (rounded_at_bounds num den _ Hnum Hden He) as [Hm Hnormal].
  fold l in Hnormal.
  destruct (Binary32.rounded_at num den (Z.max (l - 23) (-149)))
    as [m inexact].
  cbn [fst] in Hm, Hnormal.
  destruct (Z.eqb_spec m (2 ^ 24)) as [->|Hcarry].
  - destruct (Z.ltb_spec 104 (Z.max (l - 23) (-149) + 1)); [discriminate|].
    destruct (Binary32.tiny num den && inexact)%bool; [discriminate|].
    intros [= <-]. eexists _, _. split; [reflexivity|].
    split; [reflexivity|]. split; [lia|]. left. discriminate.
  - destruct (Z.ltb_spec 104 (Z.max (l - 23) (-149))); [discriminate|].
    destruct (Binary32.tiny num den && inexact)%bool; [discriminate|].
    destruct m as [|p|p]; try discriminate.
    intros [= <-]. eexists _, _. split; [reflexivity|].
    split; [lia|]. split; [lia|].
    destruct (Z.max_spec (l - 23) (-149)) as [[_ Hmax]|[_ Hmax]].
    + right. exact Hmax.
    + left. apply Hnormal. exact Hmax.
Qed.

Example split_on_three : Cxx.split_on "=" "K=a=b" = ["K"; "a"; "b"].
Proof. reflexivity. Qed.

Example split_on_empty : Cxx.split_on "=" "" = [""].
Proof. reflexivity. Qed.

Lemma split_on_before_after sep s :
  Cxx.split_on sep s =
  before sep s :: match after sep s with
                  | Some rest => Cxx.split_on sep rest
                  | None => []
                  end.
Proof.
  induction s as [|c rest IH]; simpl; [reflexivity|].
  destruct (Ascii.eqb c sep); [reflexivity|].
  rewrite IH. reflexivity.
Qed.

Lemma pair_induction {A} (P : list A -> Prop) :
  P [] -> (forall x, P [x]) -> (forall x y l, P l -> P (x :: y :: l)) ->
  forall l, P l.
Proof.
  intros Hnil Hone Hstep l.
  enough (P l /\ forall x, P (x :: l)) by tauto.
  induction l as [|y l [IH1 IH2]]; split; auto.
Qed.

(** * Facts about the embedding *)

Section ValidatorFacts.

Context {platform : Platform} {file_structure : FileStructure}.

Import Cxx.

(** ** Metadata lines *)

Lemma last_write_app k l1 l2 :
  last_write k (l1 ++ l2) =
  match last_write k l2 with
  | Some v => Some v
  | None => last_write k l1
  end.
Proof.
  induction l1 as [|[k' v] l1 IH]; simpl.
  - destruct (last_write k l2); reflexivity.
  - rewrite IH. destruct (last_write k l2); reflexivity.
Qed.

Lemma lookup_list_to_map_reverse (ps : list (string * string)) k :
  (list_to_map (reverse ps) : gmap string string) !! k = last_write k ps.
Proof.
  induction ps as [|[k' v] ps IH]; simpl.
  - apply lookup_empty.
  - rewrite reverse_cons, list_to_map_app. simpl.
    rewrite lookup_union, IH, lookup_insert, lookup_empty.
    destruct (last_write k ps); case_decide; reflexivity.
Qed.

Lemma key_values_loop_even tokens kv w :
  Nat.even (length tokens) = true ->
  key_values_loop tokens kv w =
  Ok (fold_left (fun m p => <[fst p := snd p]> m) (pairs tokens) kv) w.
Proof.
  revert kv. induction tokens as [|x|x y l IH] using pair_induction;
    intros kv Heven.
  - reflexivity.
  - discriminate.
  - simpl. apply IH. exact Heven.
Qed.

Lemma lookup_fold_insert (ps : list (string * string))
    (kv : gmap string string) k :
  fold_left (fun m p => <[fst p := snd p]> m) ps kv !! k =
  match last_write k ps with
  | Some v => Some v
  | None => kv !! k
  end.
Proof.
  revert kv. induction ps as [|[k' v] ps IH]; intros kv; simpl.
  - reflexivity.
  - rewrite IH. destruct (last_write k ps); [reflexivity|].
    rewrite lookup_insert. case_decide; reflexivity.
Qed.

Lemma fold_insert_list_to_map (ps : list (string * string)) :
  fold_left (fun m p => <[fst p := snd p]> m) ps (∅ : gmap string string) =
  list_to_map (reverse ps).
Proof.
  apply map_eq. intros k.
  rewrite lookup_fold_insert, lookup_list_to_map_reverse, lookup_empty.
  destruct (last_write k ps); reflexivity.
Qed.

Lemma even_mod2 n : Nat.even n = true <-> (n `mod` 2 = 0)%nat.
Proof.
  rewrite Nat.even_spec. split.
  - intros [m ->]. rewrite Nat.mul_comm. apply Nat.Div0.mod_mul.
  - intros H. exists (n / 2)%nat.
    pose proof (Nat.div_mod_eq n 2). lia.
Qed.

(** An odd number (more than one) of key/value tokens under a type tag:
    the last branch of [handle_meta_line] is taken, which does nothing. *)
Lemma handle_meta_line_odd_shape w :
  m_line_typeid (policy w) <> "" ->
  (1 < length (m_grouped_tokens (policy w)))%nat ->
  Nat.odd (length (m_grouped_tokens (policy w))) = true ->
  handle_meta_line w = Ok tt w.
Proof.
  intros Htag Hlen Hodd.
  unfold handle_meta_line, try_catch_invalid_argument, bind, get_policy.
  rewrite decide_False by exact Htag.
  rewrite decide_False by lia.
  rewrite decide_False; [reflexivity|].
  rewrite <- even_mod2, <- Nat.negb_odd, Hodd. discriminate.
Qed.

Lemma build_meta_accepted m w :
  MetaEntry_ctor m = None ->
  build_meta m w = add_meta m w.
Proof.
  intros Hctor.
  unfold build_meta, try_catch_invalid_argument, bind, new_MetaEntry.
  rewrite Hctor. reflexivity.
Qed.

Lemma handle_meta_line_structured w :
  m_line_typeid (policy w) <> "" ->
  length (m_grouped_tokens (policy w)) <> 1%nat ->
  Nat.even (length (m_grouped_tokens (policy w))) = true ->
  handle_meta_line w =
  build_meta (Structured (m_line_typeid (policy w))
                (list_to_map (reverse (pairs (m_grouped_tokens (policy w))))))
    w.
Proof.
  intros Htag Hlen Heven.
  unfold handle_meta_line, build_meta, try_catch_invalid_argument.
  unfold bind at 1. unfold get_policy at 1.
  rewrite decide_False by exact Htag.
  rewrite decide_False by exact Hlen.
  rewrite decide_True by (apply even_mod2; exact Heven).
  unfold bind at 1.
  rewrite key_values_loop_even by exact Heven.
  rewrite fold_insert_list_to_map. reflexivity.
Qed.

Lemma meta_shape_structured type_id tokens id kv :
  meta_shape type_id tokens = Some (Structured id kv) ->
  id = type_id /\ kv = list_to_map (reverse (pairs tokens)).
Proof.
  unfold meta_shape. case_decide.
  - destruct tokens; discriminate.
  - destruct tokens as [|v [|v2 rest]];
      [..|destruct (Nat.even (length (v :: v2 :: rest)))];
      try discriminate; intros Heq; injection Heq as <- <-;
      split; reflexivity.
Qed.

(** C7. The shape of the MetaEntry a completed metadata line constructs
    follows the captured tokens: without a type tag it is Plain with the
    first (bare) value; with a type tag and exactly one value token it is
    Scalar; with a type tag and an even number of tokens it is Structured
    over the map of the key/value pairs, in which the value written last
    for a key is the one kept.  When the constructor accepts the entry it
    is appended to the metadata of the Source. *)
Theorem handle_meta_line_shape w m :
  meta_shape (m_line_typeid (policy w)) (m_grouped_tokens (policy w))
  = Some m ->
  handle_meta_line w = build_meta m w /\
  (MetaEntry_ctor m = None ->
   exists w', handle_meta_line w = Ok tt w' /\
     meta_entries (source (state w'))
     = (meta_entries (source (state w)) ++ [m])%list /\
     records (state w') = records (state w)) /\
  (forall id kv, m = Structured id kv ->
     id = m_line_typeid (policy w) /\
     forall k, kv !! k = last_write k (pairs (m_grouped_tokens (policy w)))).
Proof.
  intros Hshape.
  assert (Hrun : handle_meta_line w = build_meta m w).
  { unfold meta_shape in Hshape. case_decide as Htag.
    - destruct (m_grouped_tokens (policy w)) as [|value rest] eqn:Htok;
        [discriminate|].
      injection Hshape as <-.
      unfold handle_meta_line, build_meta, try_catch_invalid_argument.
      unfold bind at 1. unfold get_policy at 1.
      rewrite decide_True by exact Htag. rewrite Htok. reflexivity.
    - destruct (m_grouped_tokens (policy w)) as [|v [|v2 rest]] eqn:Htok.
      + injection Hshape as <-.
        rewrite (handle_meta_line_structured w), Htok;
          [reflexivity|exact Htag|rewrite Htok; discriminate
          |rewrite Htok; reflexivity].
      + injection Hshape as <-.
        unfold handle_meta_line, build_meta, try_catch_invalid_argument.
        unfold bind at 1. unfold get_policy at 1.
        rewrite decide_False by exact Htag. rewrite Htok.
        reflexivity.
      + destruct (Nat.even (length (v :: v2 :: rest))) eqn:Heven;
          [|discriminate].
        injection Hshape as <-.
        rewrite (handle_meta_line_structured w), Htok;
          [reflexivity|exact Htag|rewrite Htok; discriminate
          |rewrite Htok; exact Heven]. }
  split; [exact Hrun|]. split.
  - intros Hctor. rewrite Hrun, (build_meta_accepted _ _ Hctor).
    eexists. split; [reflexivity|]. split; reflexivity.
  - intros id kv ->. destruct (meta_shape_structured _ _ _ _ Hshape) as [-> ->].
    split; [reflexivity|]. intros k. apply lookup_list_to_map_reverse.
Qed.

(** ** Newline *)

Lemma handle_newline_run w :
  handle_newline w =
  Ok tt (mkWorld (mkStore "" (m_line_typeid (policy w)) [] ∅)
           (state w) (diagnostics w)).
Proof. reflexivity. Qed.

(** C2 (amended). [handle_newline] empties the current token, the
    grouped-token list and the per-line column map and touches nothing
    else, the pending meta type tag included.  Hence two policy states
    that agree on the type tag are indistinguishable after a newline,
    whatever events follow. *)
Theorem handle_newline_clears_line_state p1 p2 s d es :
  m_line_typeid p1 = m_line_typeid p2 ->
  handle_newline (mkWorld p1 s d)
  = Ok tt (mkWorld (mkStore "" (m_line_typeid p1) [] ∅) s d) /\
  (handle_newline >> store_events es) (mkWorld p1 s d)
  = (handle_newline >> store_events es) (mkWorld p2 s d).
Proof.
  intros Htag. split; [reflexivity|].
  unfold bind. rewrite !handle_newline_run. simpl. rewrite Htag.
  reflexivity.
Qed.

(** ** Body lines *)

Lemma state_touch k w : state (touch k w) = state w.
Proof. unfold touch. destruct (_ !! k); reflexivity. Qed.

Lemma column_group_touch k k' w :
  column_group k' (touch k w) = column_group k' w.
Proof.
  unfold column_group, touch.
  destruct (m_line_tokens (policy w) !! k) eqn:Hk; [reflexivity|].
  simpl. rewrite lookup_insert. case_decide as Heq; [|reflexivity].
  subst k'. rewrite Hk. reflexivity.
Qed.

Lemma first_token_touch k k' w :
  first_token k' (touch k w) = first_token k' w.
Proof.
  unfold first_token, touch.
  destruct (m_line_tokens (policy w) !! k) eqn:Hk; [reflexivity|].
  simpl. rewrite lookup_insert. case_decide as Heq; [|reflexivity].
  subst k'. rewrite Hk. reflexivity.
Qed.

Lemma touch_present k w :
  is_Some (m_line_tokens (policy w) !! k) -> touch k w = w.
Proof. intros [v Hv]. unfold touch. rewrite Hv. reflexivity. Qed.

Lemma first_token_present k w tok :
  first_token k w = Some tok -> is_Some (m_line_tokens (policy w) !! k).
Proof.
  unfold first_token. destruct (_ !! k); [eauto|discriminate].
Qed.

Lemma map_subscript_run k w :
  map_subscript k w = Ok (column_group k w) (touch k w).
Proof.
  unfold map_subscript, column_group, touch.
  destruct (_ !! k); reflexivity.
Qed.

Lemma vector_at_first col w tok w' :
  first_token col w = Some tok ->
  vector_at (column_group col w) 0 w' = Ok tok w'.
Proof.
  unfold first_token, column_group, vector_at.
  destruct (_ !! col) as [[|x g]|]; simpl; try discriminate.
  intros [= ->]. reflexivity.
Qed.

Lemma vector_at_missing col w w' :
  first_token col w = None ->
  vector_at (column_group col w) 0 w' = Undefined.
Proof.
  unfold first_token, column_group, vector_at.
  destruct (_ !! col) as [[|x g]|]; simpl; try discriminate; reflexivity.
Qed.

Lemma info_loop_run fields info w :
  info_loop fields info w = Ok (info_fold fields info) w.
Proof.
  revert info. induction fields as [|field rest IH]; intros info;
    [reflexivity|].
  simpl. rewrite (split_on_before_after "=" field).
  destruct (after "=" field) as [tail|].
  - rewrite (split_on_before_after "=" tail).
    case_decide as Hlen; [|simpl in Hlen; lia].
    unfold bind, vector_at. simpl. apply IH.
  - case_decide as Hlen; [simpl in Hlen; lia|].
    unfold bind, vector_at. simpl. apply IH.
Qed.

Ltac step_bind :=
  match goal with
  | |- context [bind ?m ?k ?w] =>
      change (bind m k w) with
        (match m w with
         | Ok a w' => k a w'
         | Throw e w' => Throw e w'
         | Undefined => Undefined
         end)
  end.

Ltac step_subscript :=
  step_bind; rewrite map_subscript_run; cbv beta iota;
  rewrite ?column_group_touch.

Ltac step_first H := step_bind; rewrite (vector_at_first _ _ _ _ H); cbv beta iota.
Ltac step_missing H := step_bind; rewrite (vector_at_missing _ _ _ H); cbv beta iota.

Ltac enter_body_line :=
  unfold handle_body_line; unfold try_catch_invalid_argument at 1.

Lemma handle_body_line_no_position w :
  first_token "POS" w = None -> handle_body_line w = Undefined.
Proof.
  intros Hpos. enter_body_line.
  step_subscript. step_missing Hpos. reflexivity.
Qed.

Lemma handle_body_line_position_error w pos_token e :
  first_token "POS" w = Some pos_token ->
  stoi pos_token = inr e ->
  handle_body_line w =
  Throw (match e with InvalidArgument what => ParsingError what | _ => e end)
    w.
Proof.
  intros Hpos Hstoi. enter_body_line.
  step_subscript. step_first Hpos.
  rewrite (touch_present _ _ (first_token_present _ _ _ Hpos)).
  step_bind. rewrite Hstoi. simpl. destruct e; reflexivity.
Qed.

Ltac enter_quality Hpos Hstoi :=
  enter_body_line; step_subscript; step_first Hpos;
  rewrite (touch_present _ _ (first_token_present _ _ _ Hpos));
  step_bind; rewrite Hstoi; cbv beta iota delta [lift_exn ret];
  step_bind; unfold try_catch_invalid_argument at 1;
  step_subscript.

Lemma handle_body_line_no_quality w pos_token n :
  first_token "POS" w = Some pos_token ->
  stoi pos_token = inl n ->
  first_token "QUAL" w = None ->
  handle_body_line w = Undefined.
Proof.
  intros Hpos Hstoi Hqual. enter_quality Hpos Hstoi.
  step_missing Hqual. reflexivity.
Qed.

Lemma handle_body_line_quality_error w pos_token n qual_token e :
  first_token "POS" w = Some pos_token ->
  stoi pos_token = inl n ->
  first_token "QUAL" w = Some qual_token ->
  parse_quality qual_token = inr e ->
  handle_body_line w = Throw e w.
Proof.
  intros Hpos Hstoi Hqual Hq. enter_quality Hpos Hstoi.
  step_first Hqual.
  rewrite (touch_present _ _ (first_token_present _ _ _ Hqual)).
  unfold parse_quality in Hq.
  destruct (stof qual_token) as [f|[what|what|what]] eqn:Hstof;
    try discriminate; injection Hq as <-; reflexivity.
Qed.

(** Up to the first read of the CHROM group, once the position and the
    quality are known. *)
Ltac enter_record Hpos Hstoi Hqual Hq :=
  enter_quality Hpos Hstoi; step_first Hqual;
  unfold parse_quality in Hq;
  match type of Hq with
  | context [stof ?t] =>
      let Hstof := fresh "Hstof" in
      destruct (stof t) as [?|[?|?|?]] eqn:Hstof; try discriminate;
      injection Hq as <-
  end;
  cbv beta iota delta [lift_exn ret throw];
  step_subscript; (step_bind; rewrite info_loop_run; cbv beta iota);
  step_subscript.

Lemma handle_body_line_no_chrom w pos_token n qual_token q :
  first_token "POS" w = Some pos_token ->
  stoi pos_token = inl n ->
  first_token "QUAL" w = Some qual_token ->
  parse_quality qual_token = inl q ->
  first_token "CHROM" w = None ->
  handle_body_line w = Undefined.
Proof.
  intros Hpos Hstoi Hqual Hq Hchrom.
  enter_record Hpos Hstoi Hqual Hq; step_missing Hchrom; reflexivity.
Qed.

Lemma handle_body_line_no_ref w pos_token n qual_token q chrom :
  first_token "POS" w = Some pos_token ->
  stoi pos_token = inl n ->
  first_token "QUAL" w = Some qual_token ->
  parse_quality qual_token = inl q ->
  first_token "CHROM" w = Some chrom ->
  first_token "REF" w = None ->
  handle_body_line w = Undefined.
Proof.
  intros Hpos Hstoi Hqual Hq Hchrom Href.
  enter_record Hpos Hstoi Hqual Hq; step_first Hchrom;
    do 2 step_subscript; step_missing Href; reflexivity.
Qed.

(** The whole of [handle_body_line] when the four indexed groups have a
    first token and the two conversions return: the record is built from
    the column map and handed to the constructor. *)
Lemma handle_body_line_run w pos_token n qual_token q chrom ref :
  first_token "POS" w = Some pos_token ->
  stoi pos_token = inl n ->
  first_token "QUAL" w = Some qual_token ->
  parse_quality qual_token = inl q ->
  first_token "CHROM" w = Some chrom ->
  first_token "REF" w = Some ref ->
  handle_body_line w =
  build_record (body_record w chrom n ref q) (touch_all body_columns w).
Proof.
  intros Hpos Hstoi Hqual Hq Hchrom Href.
  assert (Hall : touch_all body_columns w =
                 touch "SAMPLES" (touch "FORMAT" (touch "FILTER"
                   (touch "ALT" (touch "REF" (touch "ID" (touch "CHROM"
                     (touch "INFO" (touch "QUAL" w))))))))).
  { unfold touch_all, body_columns. simpl.
    rewrite (touch_present "POS" w (first_token_present _ _ _ Hpos)).
    reflexivity. }
  rewrite Hall.
  enter_record Hpos Hstoi Hqual Hq; step_first Hchrom;
    do 2 step_subscript; step_first Href; do 4 step_subscript;
    reflexivity.
Qed.

Lemma state_touch_all ks w : state (touch_all ks w) = state w.
Proof.
  revert w. induction ks as [|k ks IH]; intros w; [reflexivity|].
  simpl. rewrite IH. apply state_touch.
Qed.

Lemma build_record_accepted r w :
  Record_ctor r = None -> build_record r w = add_record r w.
Proof.
  intros Hctor.
  unfold build_record, try_catch_invalid_argument, bind, new_Record.
  rewrite Hctor. reflexivity.
Qed.

Lemma build_record_defined r w : build_record r w <> Undefined.
Proof.
  unfold build_record, try_catch_invalid_argument, bind, new_Record.
  destruct (Record_ctor r) as [[what|what|what]|]; discriminate.
Qed.

Lemma build_record_appends r w :
  Record_ctor r = None ->
  exists w', build_record r w = Ok tt w' /\
    records (state w') = (records (state w) ++ [r])%list /\
    source (state w') = source (state w).
Proof.
  intros Hctor. rewrite (build_record_accepted _ _ Hctor).
  eexists. split; [reflexivity|]. split; reflexivity.
Qed.

Lemma stof_unparsable qual_token :
  strtof_converts qual_token = false ->
  stof qual_token = inr (InvalidArgument "stof").
Proof. unfold stof. intros ->. reflexivity. Qed.

Lemma stoi_unparsable pos_token :
  strtol_prefix pos_token = None ->
  stoi pos_token = inr (InvalidArgument "stoi").
Proof. unfold stoi. intros ->. reflexivity. Qed.

Lemma stoi_in_range pos_token n :
  strtol_prefix pos_token = Some n ->
  INT_MIN <= n <= INT_MAX ->
  stoi pos_token = inl n.
Proof.
  intros Hconv [Hlo Hhi]. unfold stoi. rewrite Hconv.
  apply Z.leb_le in Hlo. apply Z.leb_le in Hhi.
  rewrite Hlo, Hhi. reflexivity.
Qed.

(** C3 (amended). The first QUAL token decides the quality through
    [std::stof] alone.  When [std::stof] performs no conversion on it (the
    token is [.] or any other text with no number, [inf] or [nan] at its
    front), the conversion raises nothing out of [handle_body_line]: the
    Record is constructed with quality 0 ([float_of_int 0]) from the column
    map, and is appended to the record sequence when its constructor
    accepts it.  When the token begins with a number that [std::stof]
    converts to the [float] [f], whatever text follows the number, the
    fallback does not apply: the Record is constructed with quality [f]. *)
Theorem handle_body_line_quality_token
    w pos_token n qual_token chrom ref :
  first_token "POS" w = Some pos_token ->
  stoi pos_token = inl n ->
  first_token "QUAL" w = Some qual_token ->
  first_token "CHROM" w = Some chrom ->
  first_token "REF" w = Some ref ->
  (strtof_converts qual_token = false ->
   let r := body_record w chrom n ref (float_of_int 0) in
   stof qual_token = inr (InvalidArgument "stof") /\
   quality r = float_of_int 0 /\
   handle_body_line w = build_record r (touch_all body_columns w) /\
   (Record_ctor r = None ->
    exists w', handle_body_line w = Ok tt w' /\
      records (state w') = (records (state w) ++ [r])%list)) /\
  (forall f,
     strtof_converts qual_token = true ->
     strtof_value qual_token = Some f ->
     let r := body_record w chrom n ref f in
     stof qual_token = inl f /\
     quality r = f /\
     handle_body_line w = build_record r (touch_all body_columns w) /\
     (Record_ctor r = None ->
      exists w', handle_body_line w = Ok tt w' /\
        records (state w') = (records (state w) ++ [r])%list)).
Proof.
  intros Hpos Hstoi Hqual Hchrom Href.
  assert (Hbuilt : forall q,
            parse_quality qual_token = inl q ->
            let r := body_record w chrom n ref q in
            handle_body_line w = build_record r (touch_all body_columns w) /\
            (Record_ctor r = None ->
             exists w', handle_body_line w = Ok tt w' /\
               records (state w') = (records (state w) ++ [r])%list)).
  { intros q Hq r.
    pose proof (handle_body_line_run w _ _ _ _ _ _
                  Hpos Hstoi Hqual Hq Hchrom Href) as Hrun.
    split; [exact Hrun|]. intros Hctor.
    destruct (build_record_appends r (touch_all body_columns w) Hctor)
      as (w' & Hbuild & Hrec & _).
    exists w'. split; [rewrite Hrun; exact Hbuild|].
    rewrite Hrec, state_touch_all. reflexivity. }
  split.
  - intros Hconv r.
    pose proof (stof_unparsable _ Hconv) as Hstof.
    split; [exact Hstof|]. split; [reflexivity|].
    apply Hbuilt. unfold parse_quality. rewrite Hstof. reflexivity.
  - intros f Hconv Hvalue r.
    assert (Hstof : stof qual_token = inl f).
    { unfold stof. rewrite Hconv, Hvalue. reflexivity. }
    split; [exact Hstof|]. split; [reflexivity|].
    apply Hbuilt. unfold parse_quality. rewrite Hstof. reflexivity.
Qed.

(** C5 (amended). The first POS token decides the position through
    [std::stoi] alone.  When [std::stoi] performs no conversion on it (no
    digit after optional white space and an optional sign),
    [handle_body_line] leaves through a [ParsingError] that carries the
    message of the [std::invalid_argument] raised by the conversion;
    nothing is constructed, there is no fallback, and the error policy of
    the configuration plays no part.  When the token begins with an
    integer [n] that fits an [int], whatever text follows the digits, the
    position raises nothing: once the quality is converted, the Record is
    constructed with the position [n] cast to [size_t]. *)
Theorem handle_body_line_position_token w pos_token ep :
  first_token "POS" w = Some pos_token ->
  (strtol_prefix pos_token = None ->
   stoi pos_token = inr (InvalidArgument "stoi") /\
   handle_body_line w = Throw (ParsingError "stoi") w /\
   run_action (mkConfiguration UseStoreParsePolicy ep) (Emit BodyLine) w
   = Throw (ParsingError "stoi") w) /\
  (forall n qual_token q chrom ref,
     strtol_prefix pos_token = Some n ->
     INT_MIN <= n <= INT_MAX ->
     first_token "QUAL" w = Some qual_token ->
     parse_quality qual_token = inl q ->
     first_token "CHROM" w = Some chrom ->
     first_token "REF" w = Some ref ->
     let r := body_record w chrom n ref q in
     stoi pos_token = inl n /\
     position r = n mod 2 ^ Z.of_nat size_bits /\
     handle_body_line w = build_record r (touch_all body_columns w)).
Proof.
  intros Hpos. split.
  - intros Hconv.
    pose proof (stoi_unparsable _ Hconv) as Hstoi.
    pose proof (handle_body_line_position_error w _ _ Hpos Hstoi) as Hrun.
    split; [exact Hstoi|]. split; exact Hrun.
  - intros n qual_token q chrom ref Hconv Hrange Hqual Hq Hchrom Href r.
    pose proof (stoi_in_range _ _ Hconv Hrange) as Hstoi.
    split; [exact Hstoi|]. split; [reflexivity|].
    exact (handle_body_line_run w _ _ _ _ _ _
             Hpos Hstoi Hqual Hq Hchrom Href).
Qed.

Lemma INT_MAX_lower : -1 <= INT_MAX.
Proof.
  unfold INT_MAX.
  pose proof (Z.pow_nonneg 2 (Z.of_nat int_bits - 1)). lia.
Qed.

(** C10. A POS token that [std::stoi] converts to a negative [int] [n]
    raises nothing: the cast to [size_t] stores [n] modulo [2 ^ size_bits]
    as the position of the Record, a non-negative number different from
    [n] (equal to [2 ^ size_bits + n] when [n] is above [- 2 ^ size_bits]),
    and the Record is constructed with it. *)
Theorem handle_body_line_negative_position
    w pos_token n qual_token q chrom ref :
  first_token "POS" w = Some pos_token ->
  strtol_prefix pos_token = Some n ->
  INT_MIN <= n < 0 ->
  first_token "QUAL" w = Some qual_token ->
  parse_quality qual_token = inl q ->
  first_token "CHROM" w = Some chrom ->
  first_token "REF" w = Some ref ->
  let r := body_record w chrom n ref q in
  stoi pos_token = inl n /\
  position r = n mod 2 ^ Z.of_nat size_bits /\
  0 <= position r /\
  (- 2 ^ Z.of_nat size_bits <= n ->
   position r = 2 ^ Z.of_nat size_bits + n) /\
  handle_body_line w = build_record r (touch_all body_columns w) /\
  (Record_ctor r = None ->
   exists w', handle_body_line w = Ok tt w' /\
     records (state w') = (records (state w) ++ [r])%list).
Proof.
  intros Hpos Hconv [Hlo Hneg] Hqual Hq Hchrom Href r.
  assert (Hstoi : stoi pos_token = inl n).
  { apply stoi_in_range; [exact Hconv|].
    pose proof INT_MAX_lower. lia. }
  pose proof (handle_body_line_run w _ _ _ _ _ _
                Hpos Hstoi Hqual Hq Hchrom Href) as Hrun.
  assert (Hpow : 0 < 2 ^ Z.of_nat size_bits)
    by (apply Z.pow_pos_nonneg; lia).
  split; [exact Hstoi|]. split; [reflexivity|].
  split; [apply Z.mod_pos_bound; exact Hpow|].
  split.
  - intros Hbound. simpl. unfold size_t_of_int.
    symmetry. apply Z.mod_unique with (q := -1); lia.
  - split; [exact Hrun|]. intros Hctor.
    destruct (build_record_appends r (touch_all body_columns w) Hctor)
      as (w' & Hbuild & Hrec & _).
    exists w'. split; [rewrite Hrun; exact Hbuild|].
    rewrite Hrec, state_touch_all. reflexivity.
Qed.

(** ** Column ends *)

Lemma column_name_range n : is_Some (column_name n) <-> 1 <= n <= 9.
Proof.
  split.
  - intros [name Hname]. destruct n as [|p|p]; try discriminate.
    do 4 (try destruct p as [p|p|]); try discriminate; lia.
  - intros Hn.
    assert (n = 1 \/ n = 2 \/ n = 3 \/ n = 4 \/ n = 5 \/ n = 6 \/ n = 7
            \/ n = 8 \/ n = 9) as Hcases by lia.
    repeat (destruct Hcases as [->|Hcases]; [eexists; reflexivity|]).
    subst n. eexists. reflexivity.
Qed.

Lemma handle_column_end_fixed n name w :
  column_name n = Some name ->
  handle_column_end n w
  = Ok tt (with_column name (m_grouped_tokens (policy w)) w).
Proof.
  intros Hname. destruct n as [|p|p]; try discriminate.
  do 4 (try destruct p as [p|p|]); try discriminate;
    injection Hname as <-; reflexivity.
Qed.

(** The default branch of the switch. *)
Lemma handle_column_end_default n w :
  column_name n = None ->
  handle_column_end n w =
  ((let* p := get_policy in
    (if decide (m_line_tokens p !! "SAMPLES" = None)
     then map_assign "SAMPLES" []
     else ret tt) >>
    let* sample := vector_at (m_grouped_tokens p) 0 in
    let* stored := map_subscript "SAMPLES" in
    map_assign "SAMPLES" (stored ++ [sample])) >>
   modify_policy (set_grouped_tokens [])) w.
Proof.
  intros Hname. destruct n as [|p|p]; try reflexivity.
  do 4 (try destruct p as [p|p|]); try discriminate; reflexivity.
Qed.

Lemma handle_column_end_sample n w sample rest :
  column_name n = None ->
  m_grouped_tokens (policy w) = sample :: rest ->
  handle_column_end n w
  = Ok tt (with_column "SAMPLES" (column_group "SAMPLES" w ++ [sample]) w).
Proof.
  intros Hname Hgroup. rewrite (handle_column_end_default _ _ Hname).
  destruct w as [[cur tid g lt] st dg]. simpl in Hgroup. subst g.
  unfold with_column, column_group.
  unfold bind, get_policy, map_subscript, map_assign, modify_policy,
    set_line_tokens, set_grouped_tokens, vector_at, ret.
  cbn [policy state diagnostics m_line_tokens m_current_token m_line_typeid
       m_grouped_tokens].
  destruct (lt !! "SAMPLES") as [stored|] eqn:Hs.
  - rewrite decide_False by discriminate.
    cbn [policy state diagnostics m_line_tokens m_current_token
         m_line_typeid m_grouped_tokens lookup list_lookup].
    rewrite Hs. reflexivity.
  - rewrite decide_True by reflexivity.
    cbn [policy state diagnostics m_line_tokens m_current_token
         m_line_typeid m_grouped_tokens lookup list_lookup].
    rewrite lookup_insert_eq.
    cbn [policy state diagnostics m_line_tokens m_current_token
         m_line_typeid m_grouped_tokens default].
    rewrite insert_insert_eq. reflexivity.
Qed.

Lemma handle_column_end_empty n w :
  column_name n = None ->
  m_grouped_tokens (policy w) = [] ->
  handle_column_end n w = Undefined.
Proof.
  intros Hname Hgroup. rewrite (handle_column_end_default _ _ Hname).
  destruct w as [[cur tid g lt] st dg]. simpl in Hgroup. subst g.
  unfold bind, get_policy, map_assign, modify_policy, ret.
  cbn [policy m_line_tokens m_grouped_tokens].
  case_decide; reflexivity.
Qed.

Lemma handle_column_end_undefined n w :
  handle_column_end n w = Undefined <->
  column_name n = None /\ m_grouped_tokens (policy w) = [].
Proof.
  destruct (column_name n) as [name|] eqn:Hname.
  - rewrite (handle_column_end_fixed _ _ _ Hname).
    split; [discriminate|intros [? _]; discriminate].
  - destruct (m_grouped_tokens (policy w)) as [|sample rest] eqn:Hgroup.
    + rewrite (handle_column_end_empty _ _ Hname Hgroup). tauto.
    + rewrite (handle_column_end_sample _ _ _ _ Hname Hgroup).
      split; [discriminate|intros [_ ?]; discriminate].
Qed.

(** C6 (amended). A column end with index 1 to 9 stores the whole
    accumulated group under the fixed name of that position; with any
    other index (10 and above in particular) and a non-empty group it
    appends exactly one string to the SAMPLES list, the first token of the
    group; in both cases the group is then empty. *)
Theorem handle_column_end_routes n w :
  (forall name, column_name n = Some name ->
     handle_column_end n w
     = Ok tt (with_column name (m_grouped_tokens (policy w)) w)) /\
  (forall sample rest, column_name n = None ->
     m_grouped_tokens (policy w) = sample :: rest ->
     handle_column_end n w
     = Ok tt (with_column "SAMPLES"
                (column_group "SAMPLES" w ++ [sample]) w)) /\
  (is_Some (column_name n) <-> 1 <= n <= 9) /\
  (forall k v,
     m_grouped_tokens (policy (with_column k v w)) = [] /\
     m_line_tokens (policy (with_column k v w))
     = <[k := v]> (m_line_tokens (policy w))).
Proof.
  split; [intros name; apply handle_column_end_fixed|].
  split; [intros sample rest; apply handle_column_end_sample|].
  split; [apply column_name_range|].
  intros k v. split; reflexivity.
Qed.

(** ** In-bounds reads of a body line *)

Lemma stof_cases qual_token :
  (exists f, stof qual_token = inl f) \/
  stof qual_token = inr (InvalidArgument "stof") \/
  stof qual_token = inr (OutOfRange "stof").
Proof.
  unfold stof. destruct (strtof_converts qual_token); [|tauto].
  destruct (strtof_value qual_token); eauto.
Qed.

Lemma handle_body_line_undefined w :
  handle_body_line w = Undefined <-> body_line_in_bounds w = false.
Proof.
  unfold body_line_in_bounds.
  destruct (first_token "POS" w) as [pos_token|] eqn:Hpos;
    [|rewrite (handle_body_line_no_position _ Hpos); tauto].
  destruct (stoi pos_token) as [n|e] eqn:Hstoi;
    [|rewrite (handle_body_line_position_error _ _ _ Hpos Hstoi);
      split; discriminate].
  destruct (first_token "QUAL" w) as [qual_token|] eqn:Hqual;
    [|rewrite (handle_body_line_no_quality _ _ _ Hpos Hstoi Hqual); tauto].
  assert (Hrecord : forall q, parse_quality qual_token = inl q ->
            handle_body_line w = Undefined <->
            bool_decide (is_Some (first_token "CHROM" w))
            && bool_decide (is_Some (first_token "REF" w)) = false).
  { intros q Hq.
    destruct (first_token "CHROM" w) as [chrom|] eqn:Hchrom.
    - destruct (first_token "REF" w) as [ref|] eqn:Href.
      + rewrite (handle_body_line_run _ _ _ _ _ _ _
                   Hpos Hstoi Hqual Hq Hchrom Href).
        rewrite !bool_decide_eq_true_2 by eauto.
        split; [intros Hu; destruct (build_record_defined _ _ Hu)
               |discriminate].
      + rewrite (handle_body_line_no_ref _ _ _ _ _ _
                   Hpos Hstoi Hqual Hq Hchrom Href).
        rewrite andb_comm, (bool_decide_eq_false_2 (is_Some None))
          by (intros [? ?]; discriminate).
        tauto.
    - rewrite (handle_body_line_no_chrom _ _ _ _ _
                 Hpos Hstoi Hqual Hq Hchrom).
      rewrite (bool_decide_eq_false_2 (is_Some None))
        by (intros [? ?]; discriminate).
      tauto. }
  destruct (stof_cases qual_token) as [[f Hstof]|[Hstof|Hstof]];
    rewrite Hstof.
  - apply (Hrecord f). unfold parse_quality. rewrite Hstof. reflexivity.
  - apply (Hrecord (float_of_int 0)). unfold parse_quality.
    rewrite Hstof. reflexivity.
  - rewrite (handle_body_line_quality_error _ _ _ _ (OutOfRange "stof")
               Hpos Hstoi Hqual);
      [split; discriminate|].
    unfold parse_quality. rewrite Hstof. reflexivity.
Qed.

Lemma columns_captured_spec cols w :
  columns_captured cols w = true <->
  forall col, col ∈ cols -> is_Some (first_token col w).
Proof.
  unfold columns_captured. rewrite forallb_forall. split.
  - intros H col Hin. apply list_elem_of_In in Hin.
    apply H in Hin. apply bool_decide_eq_true_1 in Hin. exact Hin.
  - intros H col Hin. apply bool_decide_eq_true_2, H.
    apply list_elem_of_In. exact Hin.
Qed.

(** C9 (amended). [handle_body_line] reads the first element of the POS,
    QUAL, CHROM and REF groups, in that order and with no emptiness check;
    an out-of-bounds read happens exactly when one of them is reached
    while missing or empty.  All reads are in bounds whenever those four
    groups hold a token each, whatever the other columns are, so in
    particular when all nine fixed columns do.  [handle_column_end] reads
    out of bounds exactly at a sample column whose group is empty. *)
Theorem handle_body_line_bounds w :
  (handle_body_line w = Undefined <-> body_line_in_bounds w = false) /\
  (columns_captured indexed_columns w = true ->
   handle_body_line w <> Undefined) /\
  (columns_captured fixed_columns w = true ->
   columns_captured indexed_columns w = true) /\
  (forall n, handle_column_end n w = Undefined <->
     column_name n = None /\ m_grouped_tokens (policy w) = []).
Proof.
  split; [apply handle_body_line_undefined|].
  split; [|split; [|intros n; apply handle_column_end_undefined]].
  - rewrite columns_captured_spec. intros Hcols.
    rewrite handle_body_line_undefined. unfold body_line_in_bounds.
    destruct (Hcols "POS") as [pos_token ->]; [set_solver|].
    destruct (Hcols "QUAL") as [qual_token ->]; [set_solver|].
    rewrite !bool_decide_eq_true_2 by (apply Hcols; set_solver).
    destruct (stoi pos_token); [|discriminate].
    destruct (stof qual_token) as [|[]]; discriminate.
  - rewrite !columns_captured_spec. intros Hcols col Hin.
    apply Hcols. apply list_elem_of_In in Hin. apply list_elem_of_In.
    unfold indexed_columns in Hin. unfold fixed_columns.
    simpl in *. tauto.
Qed.

(** ** The INFO mapping *)

Lemma before_no_sep sep s : after sep s = None -> before sep s = s.
Proof.
  induction s as [|c rest IH]; simpl; [reflexivity|].
  destruct (Ascii.eqb c sep); [discriminate|].
  intros H. rewrite (IH H). reflexivity.
Qed.

Lemma lookup_emplace k v (m : gmap string string) k' :
  emplace k v m !! k' =
  match m !! k' with
  | Some x => Some x
  | None => if decide (k = k') then Some v else None
  end.
Proof.
  unfold emplace. destruct (m !! k) as [x|] eqn:Hk.
  - destruct (m !! k') eqn:Hk'; [reflexivity|].
    case_decide; [congruence|reflexivity].
  - rewrite lookup_insert. case_decide as Heq.
    + subst k'. rewrite Hk. reflexivity.
    + destruct (m !! k'); reflexivity.
Qed.

Lemma lookup_info_fold fields (acc : gmap string string) k :
  info_fold fields acc !! k =
  match acc !! k with
  | Some v => Some v
  | None => first_write k (map info_entry fields)
  end.
Proof.
  revert acc. induction fields as [|field rest IH]; intros acc.
  - simpl. destruct (acc !! k); reflexivity.
  - unfold info_fold in *. simpl fold_left. rewrite IH, lookup_emplace.
    simpl map. simpl first_write.
    destruct (info_entry field) as [k' v]. simpl.
    destruct (acc !! k); [reflexivity|].
    case_decide; reflexivity.
Qed.

(** C4 (amended). The INFO loop cuts every subtoken at each [=] and
    keeps the first two pieces: the key is the text before the first [=];
    the value is the text between the first and the second [=], which is
    everything after the first [=] only when there is no second one, and
    the empty string when there is no [=] at all.  A key that occurs in
    several subtokens keeps the value of the first of them. *)
Theorem info_loop_entries fields w :
  info_loop fields ∅ w = Ok (info_fold fields ∅) w /\
  (forall k,
     info_fold fields ∅ !! k = first_write k (map info_entry fields)) /\
  (forall field, after "=" field = None ->
     info_entry field = (field, "") /\ first_eq_entry field = (field, "")) /\
  (forall field value, after "=" field = Some value ->
     after "=" value = None ->
     info_entry field = (before "=" field, value) /\
     first_eq_entry field = (before "=" field, value)) /\
  (forall field value tail, after "=" field = Some value ->
     after "=" value = Some tail ->
     info_entry field = (before "=" field, before "=" value)).
Proof.
  split; [apply info_loop_run|].
  split; [intros k; rewrite lookup_info_fold, lookup_empty; reflexivity|].
  unfold info_entry, first_eq_entry.
  split; [|split].
  - intros field Hnone. rewrite Hnone, (before_no_sep _ _ Hnone).
    split; reflexivity.
  - intros field value Hsome Hnone.
    rewrite Hsome, (before_no_sep _ _ Hnone). split; reflexivity.
  - intros field value tail Hsome _. rewrite Hsome. reflexivity.
Qed.

(** ** Chunked input *)

Lemma bind_assoc {A B C} (m : M A) (k : A -> M B) (k' : B -> M C) w :
  bind (bind m k) k' w = bind m (fun a => bind (k a) k') w.
Proof. unfold bind. destruct (m w); reflexivity. Qed.

Lemma blind_ret {A} (a : A) : batch_blind (ret a).
Proof. intros b w. reflexivity. Qed.

Lemma blind_throw {A} e : batch_blind (throw e : M A).
Proof. intros b w. reflexivity. Qed.

Lemma blind_undefined {A} : batch_blind (undefined : M A).
Proof. intros b w. reflexivity. Qed.

Lemma blind_bind {A B} (m : M A) (k : A -> M B) :
  batch_blind m -> (forall a, batch_blind (k a)) -> batch_blind (bind m k).
Proof.
  intros Hm Hk b w. unfold bind. rewrite Hm.
  destruct (m w) as [a w'| |]; simpl; [apply Hk|reflexivity..].
Qed.

Lemma blind_try_catch {A} (body : M A) handler :
  batch_blind body -> (forall what, batch_blind (handler what)) ->
  batch_blind (try_catch_invalid_argument body handler).
Proof.
  intros Hbody Hhandler b w. unfold try_catch_invalid_argument.
  rewrite Hbody.
  destruct (body w) as [a w'|[what|what|what] w'|]; simpl;
    [reflexivity|apply Hhandler|reflexivity..].
Qed.

Lemma blind_lift_exn {A} (r : A + exn) : batch_blind (lift_exn r).
Proof. destruct r; intros b w; reflexivity. Qed.

Lemma blind_get_policy : batch_blind get_policy.
Proof. intros b w. reflexivity. Qed.

Lemma blind_modify_policy f : batch_blind (modify_policy f).
Proof. intros b w. reflexivity. Qed.

Lemma blind_vector_at v i : batch_blind (vector_at v i).
Proof. unfold vector_at. destruct (v !! i); intros b w; reflexivity. Qed.

Lemma blind_map_subscript k : batch_blind (map_subscript k).
Proof.
  intros b w. unfold map_subscript.
  change (policy (with_batches b w)) with (policy w).
  destruct (m_line_tokens (policy w) !! k); reflexivity.
Qed.

Lemma blind_map_assign k v : batch_blind (map_assign k v).
Proof. intros b w. reflexivity. Qed.

Lemma blind_set_version v : batch_blind (set_version v).
Proof. intros b w. reflexivity. Qed.

Lemma blind_add_meta m : batch_blind (add_meta m).
Proof. intros b w. reflexivity. Qed.

Lemma blind_add_record r : batch_blind (add_record r).
Proof. intros b w. reflexivity. Qed.

Lemma blind_set_samples l : batch_blind (set_samples l).
Proof. intros b w. reflexivity. Qed.

Lemma blind_set_cs c : batch_blind (set_cs c).
Proof. intros b w. reflexivity. Qed.

Lemma blind_set_counters f : batch_blind (set_counters f).
Proof. intros b w. reflexivity. Qed.

Lemma blind_new_MetaEntry m : batch_blind (new_MetaEntry m).
Proof.
  unfold new_MetaEntry. destruct (MetaEntry_ctor m); intros b w; reflexivity.
Qed.

Lemma blind_new_Record r : batch_blind (new_Record r).
Proof.
  unfold new_Record. destruct (Record_ctor r); intros b w; reflexivity.
Qed.

Lemma blind_key_values_loop tokens kv :
  batch_blind (key_values_loop tokens kv).
Proof.
  revert kv. induction tokens as [|x|x y l IH] using pair_induction;
    intros kv; [apply blind_ret|apply blind_undefined|apply IH].
Qed.

Lemma blind_info_loop fields info : batch_blind (info_loop fields info).
Proof.
  intros b w. rewrite !info_loop_run. reflexivity.
Qed.

Lemma blind_ext {A} (m m' : M A) :
  (forall w, m w = m' w) -> batch_blind m' -> batch_blind m.
Proof. intros Heq Hm b w. rewrite !Heq. apply Hm. Qed.

(** A member function that first reads something other than the batch
    count. *)
Lemma blind_read {A X} (f : world -> X) (m : X -> M A) :
  (forall b w, f (with_batches b w) = f w) ->
  (forall x, batch_blind (m x)) ->
  batch_blind (fun w => m (f w) w).
Proof. intros Hf Hm b w. rewrite Hf. apply Hm. Qed.

Create HintDb blind discriminated.
#[local] Hint Resolve blind_ret blind_throw blind_undefined blind_lift_exn
  blind_get_policy blind_modify_policy blind_vector_at blind_map_subscript
  blind_map_assign blind_set_version blind_add_meta blind_add_record
  blind_set_samples blind_set_cs blind_set_counters blind_new_MetaEntry
  blind_new_Record blind_key_values_loop blind_info_loop : blind.

Ltac solve_blind :=
  repeat first
    [ apply blind_bind; [|intros ?]
    | apply blind_try_catch; [|intros ?]
    | case_decide
    | solve [auto with blind] ].

Lemma blind_store_event e : batch_blind (store_event e).
Proof.
  destruct e as [| | | | | | | | | | | | |n|]; simpl;
    try (apply blind_modify_policy).
  - unfold handle_fileformat. solve_blind.
  - unfold handle_meta_line. solve_blind.
  - unfold handle_header_line. solve_blind.
  - destruct (column_name n) as [name|] eqn:Hname.
    + intros b w. rewrite !(handle_column_end_fixed _ _ _ Hname).
      reflexivity.
    + eapply blind_ext; [intros w; apply (handle_column_end_default _ _ Hname)|].
      solve_blind.
  - unfold handle_body_line. solve_blind.
Qed.

Lemma blind_policy_event cfg e : batch_blind (policy_event cfg e).
Proof.
  unfold policy_event. destruct (ParsePolicy cfg);
    [apply blind_ret|apply blind_store_event].
Qed.

Lemma blind_section_error k sec : batch_blind (section_error k sec).
Proof. destruct k; intros b w; reflexivity. Qed.

Lemma blind_run_action cfg a : batch_blind (run_action cfg a).
Proof.
  destruct a as [e| |sec|f]; simpl.
  - apply blind_policy_event.
  - apply (blind_read (fun w => n_columns (state w))
             (fun n => policy_event cfg (ColumnEnd n)));
      [reflexivity|intros n; apply blind_policy_event].
  - apply blind_section_error.
  - apply blind_set_counters.
Qed.

Lemma blind_run_actions cfg acts : batch_blind (run_actions cfg acts).
Proof.
  induction acts as [|a rest IH]; simpl;
    [apply blind_ret|apply blind_bind; [apply blind_run_action|intros _; exact IH]].
Qed.

Lemma blind_step g cfg c : batch_blind (step g cfg c).
Proof.
  apply (blind_read (fun w => transition g (cs (state w)) c)
           (fun t => set_cs (snd t) >> run_actions cfg (fst t)));
    [reflexivity|].
  intros t. apply blind_bind; [apply blind_set_cs|].
  intros _. apply blind_run_actions.
Qed.

Lemma blind_parse_buffer g cfg text : batch_blind (parse_buffer g cfg text).
Proof.
  induction text as [|c rest IH]; simpl;
    [apply blind_ret|apply blind_bind; [apply blind_step|intros _; exact IH]].
Qed.

Lemma blind_end g cfg : batch_blind (end_ g cfg).
Proof.
  apply (blind_read (fun w => at_eof g (cs (state w)))
           (fun acts => run_actions cfg acts)); [reflexivity|].
  intros acts. apply blind_run_actions.
Qed.

Lemma bind_ext {A B} (m : M A) (k k' : A -> M B) w :
  (forall a w', k a w' = k' a w') -> bind m k w = bind m k' w.
Proof. intros Hk. unfold bind. destruct (m w); auto. Qed.

Lemma parse_buffer_app g cfg a b w :
  parse_buffer g cfg (a +:+ b) w
  = (parse_buffer g cfg a >> parse_buffer g cfg b) w.
Proof.
  revert w. induction a as [|c rest IH]; intros w; [reflexivity|].
  simpl. rewrite bind_assoc. apply bind_ext. intros _ w'. apply IH.
Qed.

(** Forgetting the batch count of a result. *)
Lemma observe_with_batches b r :
  observe (result_with_batches b r) = observe r.
Proof. destruct r; reflexivity. Qed.

Lemma result_with_batches_twice {A} b b' (r : result A) :
  result_with_batches b (result_with_batches b' r) = result_with_batches b r.
Proof. destruct r; reflexivity. Qed.

Lemma parse_run g cfg text (k : M unit) w :
  (parse g cfg text >> k) w
  = (parse_buffer g cfg text >> k)
      (with_batches (n_batches (state w) + 1) w).
Proof. unfold parse. rewrite bind_assoc. destruct w as [p [] d]. reflexivity. Qed.

Lemma bind_unfold {A B} (m : M A) (k : A -> M B) w :
  bind m k w =
  match m w with
  | Ok a w' => k a w'
  | Throw e w' => Throw e w'
  | Undefined => Undefined
  end.
Proof. reflexivity. Qed.

Lemma parse_chunks_joined g cfg (k : M unit) chunks :
  batch_blind k ->
  forall w,
    result_with_batches 0 ((parse_chunks g cfg chunks >> k) w)
    = result_with_batches 0
        ((parse_buffer g cfg (join_chunks chunks) >> k) w).
Proof.
  intros Hk. induction chunks as [|chunk rest IH]; intros w; [reflexivity|].
  simpl parse_chunks. simpl join_chunks.
  rewrite bind_assoc, parse_run.
  rewrite (bind_unfold (parse_buffer g cfg chunk)), blind_parse_buffer.
  rewrite (bind_unfold (parse_buffer g cfg (chunk +:+ _))),
    parse_buffer_app, (bind_unfold (parse_buffer g cfg chunk)).
  destruct (parse_buffer g cfg chunk w) as [[] w2|e w2|];
    [|reflexivity..].
  change (result_with_batches 0
            ((parse_chunks g cfg rest >> k)
               (with_batches (n_batches (state w) + 1) w2))
          = result_with_batches 0
              ((parse_buffer g cfg (join_chunks rest) >> k) w2)).
  rewrite IH.
  rewrite (blind_bind _ _ (blind_parse_buffer g cfg (join_chunks rest))
             (fun _ => Hk)).
  apply result_with_batches_twice.
Qed.

(** C8. Feeding a document to [parse] in any sequence of chunks and then
    calling [end()] is observed exactly as feeding the joined text as one
    chunk and then calling [end()]: same outcome (return or exception),
    same Source, same record sequence, same validity flag.  The engine is
    the resumable character-level machine of the spec, for every
    transition table and both choices of each policy. *)
Theorem parse_chunks_single_chunk g cfg chunks w :
  observe ((parse_chunks g cfg chunks >> end_ g cfg) w)
  = observe ((parse g cfg (join_chunks chunks) >> end_ g cfg) w).
Proof.
  rewrite <- (observe_with_batches 0 ((parse_chunks _ _ _ >> _) w)).
  rewrite parse_chunks_joined by apply blind_end.
  rewrite parse_run.
  rewrite (blind_bind _ _ (blind_parse_buffer g cfg (join_chunks chunks))
             (fun _ => blind_end g cfg)).
  rewrite !observe_with_batches. reflexivity.
Qed.

(** A quality outside the range of [float] is not covered by the
    fallback to 0: [std::out_of_range] leaves [handle_body_line]. *)
Remark quality_out_of_float_range w pos_token n qual_token :
  first_token "POS" w = Some pos_token ->
  stoi pos_token = inl n ->
  first_token "QUAL" w = Some qual_token ->
  strtof_converts qual_token = true ->
  strtof_value qual_token = None ->
  handle_body_line w = Throw (OutOfRange "stof") w.
Proof.
  intros Hpos Hstoi Hqual Hconv Hvalue.
  apply (handle_body_line_quality_error w pos_token n qual_token);
    try assumption.
  unfold parse_quality, stof. rewrite Hconv, Hvalue. reflexivity.
Qed.

(** C1. A metadata line with a type tag and an odd number, greater than
    one, of key/value tokens is not rejected: [handle_meta_line] takes its
    last branch, which only holds a [TODO Throw exception] comment, and
    returns normally with nothing constructed and nothing added, under
    either error policy. *)
Theorem handle_meta_line_odd_shape_dropped w ep :
  m_line_typeid (policy w) <> "" ->
  (1 < length (m_grouped_tokens (policy w)))%nat ->
  Nat.odd (length (m_grouped_tokens (policy w))) = true ->
  handle_meta_line w = Ok tt w /\
  run_action (mkConfiguration UseStoreParsePolicy ep) (Emit MetaLine) w
  = Ok tt w.
Proof.
  intros Htag Hlen Hodd.
  pose proof (handle_meta_line_odd_shape w Htag Hlen Hodd) as Hrun.
  split; exact Hrun.
Qed.

(** ** Tokens and event sequences *)

Lemma store_events_app es1 es2 w :
  store_events (es1 ++ es2) w = (store_events es1 >> store_events es2) w.
Proof.
  revert w. induction es1 as [|e rest IH]; intros w; [reflexivity|].
  simpl. rewrite bind_assoc. apply bind_ext. intros _ w'. apply IH.
Qed.

Lemma store_events_Ok es1 es2 w w1 :
  store_events es1 w = Ok tt w1 ->
  store_events (es1 ++ es2) w = store_events es2 w1.
Proof.
  intros Hrun. rewrite store_events_app, bind_unfold, Hrun. reflexivity.
Qed.

Lemma store_events_cons e es w :
  store_events (e :: es) w
  = match store_event e w with
    | Ok _ w' => store_events es w'
    | Throw x w' => Throw x w'
    | Undefined => Undefined
    end.
Proof. reflexivity. Qed.

Lemma store_events_last e w :
  store_events [e] w = store_event e w.
Proof.
  rewrite store_events_cons. destruct (store_event e w) as [[] ?| |];
    reflexivity.
Qed.

Lemma string_app_cons x (a b : string) :
  String x a +:+ b = String x (a +:+ b).
Proof. reflexivity. Qed.

Lemma string_app_nil_r (a : string) : a +:+ "" = a.
Proof.
  induction a as [|x a IH]; [reflexivity|].
  rewrite string_app_cons, IH. reflexivity.
Qed.

Lemma string_app_assoc (a b c : string) : (a +:+ b) +:+ c = a +:+ (b +:+ c).
Proof.
  induction a as [|x a IH]; [reflexivity|].
  rewrite !string_app_cons, IH. reflexivity.
Qed.

Lemma char_events_run s w :
  store_events (char_events s) w
  = Ok tt (with_tokens (m_current_token (policy w) +:+ s)
             (m_grouped_tokens (policy w)) w).
Proof.
  revert w. induction s as [|c rest IH]; intros w.
  - rewrite string_app_nil_r. destruct w as [[cur tid g lt] st dg].
    reflexivity.
  - simpl store_events. rewrite bind_unfold.
    change (handle_token_char c w) with
      (Ok tt (with_tokens (m_current_token (policy w) +:+ String c "")
                (m_grouped_tokens (policy w)) w)).
    cbv beta iota. rewrite IH. unfold with_tokens.
    cbn [policy state diagnostics m_current_token m_line_typeid
         m_grouped_tokens m_line_tokens].
    rewrite string_app_assoc. reflexivity.
Qed.

Lemma capture_run s w :
  store_events (capture s) w
  = Ok tt (with_tokens s (m_grouped_tokens (policy w)) w).
Proof.
  unfold capture. simpl. rewrite bind_unfold.
  change (handle_token_begin w) with
    (Ok tt (with_tokens "" (m_grouped_tokens (policy w)) w)).
  cbv beta iota. rewrite char_events_run. reflexivity.
Qed.

Lemma pushes_run e w :
  pushes e ->
  store_event e w
  = Ok tt (with_tokens (m_current_token (policy w))
             (m_grouped_tokens (policy w) ++ [m_current_token (policy w)]) w).
Proof. intros [->|[->|[->| ->]]]; reflexivity. Qed.

Lemma pushed_token_run e s w :
  pushes e ->
  store_events (capture s ++ [e]) w
  = Ok tt (with_tokens s (m_grouped_tokens (policy w) ++ [s]) w).
Proof.
  intros He. rewrite (store_events_Ok _ _ _ _ (capture_run s w)).
  rewrite store_events_last, (pushes_run _ _ He). reflexivity.
Qed.

Lemma last_cons_default {A} (t : A) rest d :
  List.last (t :: rest) d = List.last rest t.
Proof.
  revert t d. induction rest as [|t' rest IH]; intros t d; [reflexivity|].
  change (List.last (t :: t' :: rest) d) with (List.last (t' :: rest) d).
  rewrite (IH t' d), (IH t' t). reflexivity.
Qed.

Lemma pushed_tokens_run e tokens w :
  pushes e ->
  store_events (concat (map (fun s => capture s ++ [e])%list tokens)) w
  = Ok tt (with_tokens (List.last tokens (m_current_token (policy w)))
             (m_grouped_tokens (policy w) ++ tokens) w).
Proof.
  intros He. revert w. induction tokens as [|t rest IH]; intros w.
  - destruct w as [[cur tid g lt] st dg]. unfold with_tokens.
    simpl. rewrite app_nil_r. reflexivity.
  - change (concat (map (fun s => capture s ++ [e])%list (t :: rest)))
      with ((capture t ++ [e])
            ++ concat (map (fun s => capture s ++ [e])%list rest))%list.
    rewrite (store_events_Ok _ _ _ _ (pushed_token_run e t w He)), IH.
    unfold with_tokens.
    cbn [policy state diagnostics m_current_token m_line_typeid
         m_grouped_tokens m_line_tokens].
    rewrite <- app_assoc, last_cons_default. reflexivity.
Qed.

(** X1. Reading tokens one after the other, each with begin, its
    characters and end, appends exactly those tokens, in order, to the
    group; the buffer ends up holding the last of them, and the type tag,
    the column map and the parsing state are untouched. *)
Theorem tokens_events_append tokens w :
  store_events (tokens_events tokens) w
  = Ok tt (with_tokens (List.last tokens (m_current_token (policy w)))
             (m_grouped_tokens (policy w) ++ tokens) w).
Proof.
  apply (pushed_tokens_run TokenEnd). left. reflexivity.
Qed.

(** ** What a metadata line can do *)

Lemma build_meta_run m w :
  build_meta m w =
  match MetaEntry_ctor m with
  | None => add_meta m w
  | Some (InvalidArgument what) => Throw (ParsingError what) w
  | Some e => Throw e w
  end.
Proof.
  unfold build_meta, try_catch_invalid_argument, bind, new_MetaEntry.
  destruct (MetaEntry_ctor m) as [[what|what|what]|]; reflexivity.
Qed.

Lemma handle_meta_line_cases w :
  handle_meta_line w =
  match meta_shape (m_line_typeid (policy w)) (m_grouped_tokens (policy w))
  with
  | Some m => build_meta m w
  | None =>
      match m_grouped_tokens (policy w) with
      | [] => Undefined
      | _ => Ok tt w
      end
  end.
Proof.
  unfold meta_shape. case_decide as Htag.
  - unfold handle_meta_line, build_meta, try_catch_invalid_argument.
    unfold bind at 1. unfold get_policy at 1.
    rewrite decide_True by exact Htag.
    destruct (m_grouped_tokens (policy w)); reflexivity.
  - destruct (m_grouped_tokens (policy w)) as [|v [|v2 rest]] eqn:Htok.
    + rewrite (handle_meta_line_structured w), Htok;
        [reflexivity|exact Htag|rewrite Htok; discriminate
        |rewrite Htok; reflexivity].
    + unfold handle_meta_line, build_meta, try_catch_invalid_argument.
      unfold bind at 1. unfold get_policy at 1.
      rewrite decide_False by exact Htag. rewrite Htok. reflexivity.
    + destruct (Nat.even (length (v :: v2 :: rest))) eqn:Heven.
      * rewrite (handle_meta_line_structured w), Htok;
          [reflexivity|exact Htag|rewrite Htok; discriminate
          |rewrite Htok; exact Heven].
      * apply handle_meta_line_odd_shape; [exact Htag|..]; rewrite Htok.
        -- simpl. lia.
        -- rewrite <- Nat.negb_even, Heven. reflexivity.
Qed.

(** X2. When [handle_meta_line] returns, the policy members and the
    record sequence are as before, the version and the sample names of
    the Source are as before, and the metadata of the Source has grown by
    the one entry the shape rule gives, or not at all when no shape
    applies (an odd number of tokens under a type tag). *)
Theorem handle_meta_line_returns w w' :
  handle_meta_line w = Ok tt w' ->
  policy w' = policy w /\
  records (state w') = records (state w) /\
  version (source (state w')) = version (source (state w)) /\
  sample_names (source (state w')) = sample_names (source (state w)) /\
  m_is_valid (state w') = m_is_valid (state w) /\
  meta_entries (source (state w')) =
  (meta_entries (source (state w))
   ++ match meta_shape (m_line_typeid (policy w))
              (m_grouped_tokens (policy w)) with
      | Some m => [m]
      | None => []
      end)%list.
Proof.
  rewrite handle_meta_line_cases.
  destruct (meta_shape _ _) as [m|].
  - rewrite build_meta_run.
    destruct (MetaEntry_ctor m) as [[what|what|what]|]; try discriminate.
    intros [= <-]. repeat split; reflexivity.
  - destruct (m_grouped_tokens (policy w)); [discriminate|].
    intros [= <-]. rewrite app_nil_r. repeat split; reflexivity.
Qed.

(** X3. When [handle_meta_line] throws, nothing has changed, the
    exception comes from the constructor of the entry the shape rule
    gives, and it is never a [std::invalid_argument]: that one is
    replaced by a [ParsingError] with the same message. *)
Theorem handle_meta_line_throws w e w' :
  handle_meta_line w = Throw e w' ->
  w' = w /\
  (forall what, e <> InvalidArgument what) /\
  exists m thrown,
    meta_shape (m_line_typeid (policy w)) (m_grouped_tokens (policy w))
    = Some m /\
    MetaEntry_ctor m = Some thrown /\
    e = match thrown with
        | InvalidArgument what => ParsingError what
        | _ => thrown
        end.
Proof.
  rewrite handle_meta_line_cases.
  destruct (meta_shape _ _) as [m|].
  - rewrite build_meta_run.
    destruct (MetaEntry_ctor m) as [[what|what|what]|] eqn:Hctor;
      try discriminate; intros [= <- <-];
      (split; [reflexivity|]); (split; [discriminate|]);
      eexists _, _; (split; [reflexivity|]);
      (split; [exact Hctor|reflexivity]).
  - destruct (m_grouped_tokens (policy w)); discriminate.
Qed.

(** X4. [handle_meta_line] reads out of bounds exactly when there is
    neither a type tag nor a token: the Plain branch indexes the first
    token without checking that there is one. *)
Theorem handle_meta_line_undefined w :
  handle_meta_line w = Undefined <->
  m_line_typeid (policy w) = "" /\ m_grouped_tokens (policy w) = [].
Proof.
  rewrite handle_meta_line_cases. unfold meta_shape.
  case_decide as Htag.
  - destruct (m_grouped_tokens (policy w)) as [|v rest].
    + tauto.
    + rewrite build_meta_run.
      split; [|intros [_ ?]; discriminate].
      destruct (MetaEntry_ctor _) as [[what|what|what]|]; discriminate.
  - split; [|tauto].
    destruct (m_grouped_tokens (policy w)) as [|v [|v2 rest]];
      [..|destruct (Nat.even _)]; cbn [length Nat.even]; cbv beta iota;
      try discriminate; rewrite build_meta_run;
      destruct (MetaEntry_ctor _) as [[what|what|what]|]; discriminate.
Qed.

(** ** Whole metadata and header lines *)

Lemma meta_pair_events_run p w :
  store_events (meta_pair_events p) w
  = Ok tt (with_tokens (snd p)
             (m_grouped_tokens (policy w) ++ [fst p; snd p]) w).
Proof.
  unfold meta_pair_events.
  rewrite (store_events_Ok _ _ _ _ (capture_run (fst p) w)).
  change ([MetaKey] ++ capture (snd p) ++ [MetaValue])%list
    with (MetaKey :: (capture (snd p) ++ [MetaValue]))%list.
  rewrite store_events_cons.
  change (store_event MetaKey
            (with_tokens (fst p) (m_grouped_tokens (policy w)) w))
    with (Ok tt (with_tokens (fst p)
                   (m_grouped_tokens (policy w) ++ [fst p]) w)).
  cbv beta iota.
  rewrite (store_events_Ok _ _ _ _ (capture_run (snd p) _)).
  rewrite store_events_last.
  unfold with_tokens. simpl.
  unfold handle_meta_value, modify_policy, set_grouped_tokens. simpl.
  rewrite <- app_assoc. reflexivity.
Qed.

Lemma meta_pairs_events_run entries w :
  store_events (concat (map meta_pair_events entries)) w
  = Ok tt (with_tokens
             (List.last (flatten_pairs entries) (m_current_token (policy w)))
             (m_grouped_tokens (policy w) ++ flatten_pairs entries) w).
Proof.
  revert w. induction entries as [|p rest IH]; intros w.
  - destruct w as [[cur tid g lt] st dg]. unfold with_tokens. simpl.
    rewrite app_nil_r. reflexivity.
  - change (concat (map meta_pair_events (p :: rest)))
      with (meta_pair_events p ++ concat (map meta_pair_events rest))%list.
    rewrite (store_events_Ok _ _ _ _ (meta_pair_events_run p w)), IH.
    unfold with_tokens.
    cbn [policy state diagnostics m_current_token m_line_typeid
         m_grouped_tokens m_line_tokens].
    rewrite <- app_assoc.
    change (flatten_pairs (p :: rest))
      with (fst p :: snd p :: flatten_pairs rest).
    replace (List.last (fst p :: snd p :: flatten_pairs rest)
               (m_current_token (policy w)))
      with (List.last (flatten_pairs rest) (snd p)); [reflexivity|].
    destruct (flatten_pairs rest) as [|t l]; [reflexivity|].
    change (List.last (fst p :: snd p :: t :: l) (m_current_token (policy w)))
      with (List.last (t :: l) (m_current_token (policy w))).
    clear. generalize (snd p) (m_current_token (policy w)). revert t.
    induction l as [|t' l IH]; intros t d d'; [reflexivity|].
    change (List.last (t :: t' :: l) d) with (List.last (t' :: l) d).
    change (List.last (t :: t' :: l) d') with (List.last (t' :: l) d').
    apply IH.
Qed.

Lemma pairs_flatten entries : pairs (flatten_pairs entries) = entries.
Proof.
  induction entries as [|[k v] rest IH]; [reflexivity|].
  change (flatten_pairs ((k, v) :: rest)) with (k :: v :: flatten_pairs rest).
  simpl. rewrite IH. reflexivity.
Qed.

Lemma even_flatten entries :
  Nat.even (length (flatten_pairs entries)) = true.
Proof.
  induction entries as [|[k v] rest IH]; [reflexivity|].
  change (flatten_pairs ((k, v) :: rest)) with (k :: v :: flatten_pairs rest).
  exact IH.
Qed.

Lemma structured_line_run tag entries w :
  m_grouped_tokens (policy w) = [] ->
  tag <> "" ->
  store_events (structured_line_events tag entries) w
  = build_meta (Structured tag (list_to_map (reverse entries)))
      (mkWorld (mkStore (List.last (flatten_pairs entries) tag) tag
                  (flatten_pairs entries) (m_line_tokens (policy w)))
         (state w) (diagnostics w)).
Proof.
  intros Hgroup Htag. unfold structured_line_events.
  rewrite (store_events_Ok _ _ _ _ (capture_run tag w)).
  change ([MetaTypeid] ++ concat (map meta_pair_events entries)
          ++ [MetaLine])%list
    with (MetaTypeid :: (concat (map meta_pair_events entries)
                         ++ [MetaLine]))%list.
  rewrite store_events_cons.
  change (store_event MetaTypeid
            (with_tokens tag (m_grouped_tokens (policy w)) w))
    with (Ok tt (mkWorld (mkStore tag tag (m_grouped_tokens (policy w))
                            (m_line_tokens (policy w)))
                   (state w) (diagnostics w))).
  cbv beta iota.
  rewrite (store_events_Ok _ _ _ _ (meta_pairs_events_run entries _)).
  unfold with_tokens.
  cbn [policy state diagnostics m_current_token m_line_typeid
       m_grouped_tokens m_line_tokens].
  rewrite Hgroup. rewrite app_nil_l. rewrite store_events_last.
  change (store_event MetaLine) with handle_meta_line.
  rewrite handle_meta_line_structured;
    cbn [policy m_line_typeid m_grouped_tokens].
  - rewrite pairs_flatten. reflexivity.
  - exact Htag.
  - intros Hone. pose proof (even_flatten entries) as Heven.
    rewrite Hone in Heven. discriminate.
  - apply even_flatten.
Qed.

(** X5. The events of a structured metadata line, read after the group
    was emptied: the type tag is read and kept, every key and value is
    read and pushed, and the line ends by constructing the Structured
    entry of that tag over exactly the given pairs, a later pair
    replacing an earlier one with the same key. *)
Theorem structured_line_builds tag entries w :
  m_grouped_tokens (policy w) = [] ->
  tag <> "" ->
  store_events (structured_line_events tag entries) w
  = build_meta (Structured tag (list_to_map (reverse entries)))
      (mkWorld (mkStore (List.last (flatten_pairs entries) tag) tag
                  (flatten_pairs entries) (m_line_tokens (policy w)))
         (state w) (diagnostics w)).
Proof. apply structured_line_run. Qed.

(** X6. The events of a metadata line with a single value, read after
    the group was emptied, construct a Plain entry with that value when no
    type tag is pending, and a Scalar entry under the pending tag
    otherwise. *)
Theorem value_line_builds value w :
  m_grouped_tokens (policy w) = [] ->
  store_events (value_line_events value) w
  = build_meta
      (if decide (m_line_typeid (policy w) = "") then Plain value
       else Scalar (m_line_typeid (policy w)) value)
      (with_tokens value [value] w).
Proof.
  intros Hgroup. unfold value_line_events.
  rewrite (store_events_Ok _ _ _ _ (capture_run value w)).
  rewrite store_events_cons.
  change (store_event MetaValue
            (with_tokens value (m_grouped_tokens (policy w)) w))
    with (Ok tt (with_tokens value
                   (m_grouped_tokens (policy w) ++ [value]) w)).
  cbv beta iota. rewrite Hgroup, app_nil_l, store_events_last.
  change (store_event MetaLine) with handle_meta_line.
  rewrite handle_meta_line_cases. unfold meta_shape, with_tokens.
  cbn [policy m_line_typeid m_grouped_tokens].
  case_decide; reflexivity.
Qed.

Lemma sample_name_events_run names w :
  store_events (concat (map (fun name => capture name ++ [SampleName])%list
                          names)) w
  = Ok tt (with_tokens (List.last names (m_current_token (policy w)))
             (m_grouped_tokens (policy w) ++ names) w).
Proof.
  apply (pushed_tokens_run SampleName). right. right. right. reflexivity.
Qed.

(** X7. The events of the header line, read after the group was emptied,
    hand exactly the sample names read, in their order, to
    [set_samples]. *)
Theorem header_line_sets_samples names w :
  m_grouped_tokens (policy w) = [] ->
  store_events (header_line_events names) w
  = set_samples names
      (with_tokens (List.last names (m_current_token (policy w))) names w).
Proof.
  intros Hgroup. unfold header_line_events.
  rewrite (store_events_Ok _ _ _ _ (sample_name_events_run names w)).
  rewrite Hgroup, app_nil_l, store_events_last. reflexivity.
Qed.

(** ** What a body line can do *)

Lemma stoi_cases pos_token :
  (exists n, stoi pos_token = inl n /\ INT_MIN <= n <= INT_MAX) \/
  stoi pos_token = inr (InvalidArgument "stoi") \/
  stoi pos_token = inr (OutOfRange "stoi").
Proof.
  unfold stoi. destruct (strtol_prefix pos_token) as [z|]; [|tauto].
  destruct (INT_MIN <=? z) eqn:Hlo; destruct (z <=? INT_MAX) eqn:Hhi;
    simpl; try tauto.
  left. exists z. split; [reflexivity|].
  apply Z.leb_le in Hlo. apply Z.leb_le in Hhi. lia.
Qed.

Lemma build_record_run r w :
  build_record r w =
  match Record_ctor r with
  | None => add_record r w
  | Some (InvalidArgument what) => Throw (ParsingError what) w
  | Some e => Throw e w
  end.
Proof.
  unfold build_record, try_catch_invalid_argument, bind, new_Record.
  destruct (Record_ctor r) as [[what|what|what]|]; reflexivity.
Qed.

(** The three ways [handle_body_line] can go: an out-of-bounds read, an
    exception of a conversion with nothing changed, or the construction
    of the record read from the column map. *)
Lemma handle_body_line_cases w :
  handle_body_line w = Undefined \/
  (exists e, handle_body_line w = Throw e w /\
     forall what, e <> InvalidArgument what) \/
  (exists pos_token n qual_token q chrom ref,
     first_token "POS" w = Some pos_token /\
     stoi pos_token = inl n /\
     first_token "QUAL" w = Some qual_token /\
     parse_quality qual_token = inl q /\
     first_token "CHROM" w = Some chrom /\
     first_token "REF" w = Some ref /\
     handle_body_line w
     = build_record (body_record w chrom n ref q)
         (touch_all body_columns w)).
Proof.
  destruct (first_token "POS" w) as [pos_token|] eqn:Hpos;
    [|left; apply handle_body_line_no_position; exact Hpos].
  destruct (stoi_cases pos_token) as [(n & Hstoi & _)|[Hstoi|Hstoi]];
    [|right; left; eexists; split;
      [apply (handle_body_line_position_error _ _ _ Hpos Hstoi)
      |discriminate]..].
  destruct (first_token "QUAL" w) as [qual_token|] eqn:Hqual;
    [|left; apply (handle_body_line_no_quality _ _ _ Hpos Hstoi Hqual)].
  assert (Hq : (exists q, parse_quality qual_token = inl q) \/
               parse_quality qual_token = inr (OutOfRange "stof")).
  { unfold parse_quality.
    destruct (stof_cases qual_token) as [[f ->]|[-> | ->]]; eauto. }
  destruct Hq as [[q Hq]|Hq];
    [|right; left; eexists; split;
      [apply (handle_body_line_quality_error _ _ _ _ _
                Hpos Hstoi Hqual Hq)
      |discriminate]].
  destruct (first_token "CHROM" w) as [chrom|] eqn:Hchrom;
    [|left; apply (handle_body_line_no_chrom _ _ _ _ _
                     Hpos Hstoi Hqual Hq Hchrom)].
  destruct (first_token "REF" w) as [ref|] eqn:Href;
    [|left; apply (handle_body_line_no_ref _ _ _ _ _ _
                     Hpos Hstoi Hqual Hq Hchrom Href)].
  right. right. exists pos_token, n, qual_token, q, chrom, ref.
  repeat (split; [first [assumption|reflexivity]|]).
  apply (handle_body_line_run _ _ _ _ _ _ _
           Hpos Hstoi Hqual Hq Hchrom Href).
Qed.

Lemma column_group_touch_all ks k w :
  column_group k (touch_all ks w) = column_group k w.
Proof.
  revert w. induction ks as [|k' ks IH]; intros w; [reflexivity|].
  simpl. rewrite IH. apply column_group_touch.
Qed.

Lemma tokens_touch k w :
  m_current_token (policy (touch k w)) = m_current_token (policy w) /\
  m_line_typeid (policy (touch k w)) = m_line_typeid (policy w) /\
  m_grouped_tokens (policy (touch k w)) = m_grouped_tokens (policy w) /\
  diagnostics (touch k w) = diagnostics w.
Proof.
  unfold touch. destruct (_ !! k); repeat split; reflexivity.
Qed.

Lemma tokens_touch_all ks w :
  m_current_token (policy (touch_all ks w)) = m_current_token (policy w) /\
  m_line_typeid (policy (touch_all ks w)) = m_line_typeid (policy w) /\
  m_grouped_tokens (policy (touch_all ks w)) = m_grouped_tokens (policy w) /\
  diagnostics (touch_all ks w) = diagnostics w.
Proof.
  revert w. induction ks as [|k ks IH]; intros w;
    [repeat split; reflexivity|].
  simpl. destruct (IH (touch k w)) as (-> & -> & -> & ->).
  apply tokens_touch.
Qed.

Lemma touch_keeps_key k k' w :
  is_Some (m_line_tokens (policy w) !! k) ->
  is_Some (m_line_tokens (policy (touch k' w)) !! k).
Proof.
  intros Hk. unfold touch.
  destruct (m_line_tokens (policy w) !! k') eqn:Hk'; [exact Hk|].
  simpl. rewrite lookup_insert. case_decide; eauto.
Qed.

Lemma touch_adds_key k w :
  is_Some (m_line_tokens (policy (touch k w)) !! k).
Proof.
  unfold touch. destruct (m_line_tokens (policy w) !! k) eqn:Hk.
  - rewrite Hk. eauto.
  - simpl. rewrite lookup_insert_eq. eauto.
Qed.

Lemma touch_all_keeps_key ks k w :
  is_Some (m_line_tokens (policy w) !! k) ->
  is_Some (m_line_tokens (policy (touch_all ks w)) !! k).
Proof.
  revert w. induction ks as [|k' ks IH]; intros w Hk; [exact Hk|].
  simpl. apply IH, touch_keeps_key, Hk.
Qed.

Lemma touch_all_adds_keys ks k w :
  k ∈ ks -> is_Some (m_line_tokens (policy (touch_all ks w)) !! k).
Proof.
  revert w. induction ks as [|k' ks IH]; intros w Hin.
  - inversion Hin.
  - simpl. apply elem_of_cons in Hin as [->|Hin].
    + apply touch_all_keeps_key, touch_adds_key.
    + apply IH, Hin.
Qed.

Lemma Throw_inj {A} e1 w1 e2 w2 :
  (Throw e1 w1 : result A) = Throw e2 w2 -> e1 = e2 /\ w1 = w2.
Proof. intros H. split; congruence. Qed.

Lemma column_group_same_policy col w w' :
  policy w' = policy w -> column_group col w' = column_group col w.
Proof. unfold column_group. intros ->. reflexivity. Qed.

Lemma first_token_same_policy col w w' :
  policy w' = policy w -> first_token col w' = first_token col w.
Proof. unfold first_token. intros ->. reflexivity. Qed.

Lemma add_record_Ok r w w' :
  add_record r w = Ok tt w' ->
  policy w' = policy w /\
  records (state w') = (records (state w) ++ [r])%list /\
  source (state w') = source (state w) /\
  m_is_valid (state w') = m_is_valid (state w).
Proof.
  unfold add_record, modify_state. intros Hrun.
  assert (Hw : mkWorld (policy w)
                 (mkParsingState (n_lines (state w)) (n_columns (state w))
                    (n_batches (state w)) (cs (state w))
                    (m_is_valid (state w)) (source (state w))
                    (records (state w) ++ [r])%list)
                 (diagnostics w) = w') by congruence.
  subst w'. repeat split; reflexivity.
Qed.

(** X8. When [handle_body_line] returns, exactly one record was appended
    and its constructor accepted it; the Source, the validity flag, the
    token buffer, the type tag and the group are as before; the record is
    the one read from the column map, with a position inside the range of
    [size_t]; every column keeps its group, and the ten columns the
    function reads are all keys of the map afterwards, the missing ones
    with an empty group. *)
Theorem handle_body_line_returns w w' :
  handle_body_line w = Ok tt w' ->
  exists pos_token n qual_token chrom ref q,
    let r := body_record w chrom n ref q in
    first_token "POS" w = Some pos_token /\
    stoi pos_token = inl n /\
    first_token "QUAL" w = Some qual_token /\
    parse_quality qual_token = inl q /\
    first_token "CHROM" w = Some chrom /\
    first_token "REF" w = Some ref /\
    Record_ctor r = None /\
    0 <= position r < 2 ^ Z.of_nat size_bits /\
    records (state w') = (records (state w) ++ [r])%list /\
    source (state w') = source (state w) /\
    m_is_valid (state w') = m_is_valid (state w) /\
    m_current_token (policy w') = m_current_token (policy w) /\
    m_line_typeid (policy w') = m_line_typeid (policy w) /\
    m_grouped_tokens (policy w') = m_grouped_tokens (policy w) /\
    (forall col, column_group col w' = column_group col w) /\
    (forall col, col ∈ body_columns ->
       is_Some (m_line_tokens (policy w') !! col)).
Proof.
  intros Hrun.
  destruct (handle_body_line_cases w)
    as [Hu|[(e & Hthrow & _)|
            (pos_token & n & qual_token & q & chrom & ref & Hpos & Hstoi
             & Hqual & Hq & Hchrom & Href & Hbuild)]];
    [congruence..|].
  exists pos_token, n, qual_token, chrom, ref, q.
  cbv zeta. rewrite Hbuild, build_record_run in Hrun.
  destruct (Record_ctor _) as [[what|what|what]|] eqn:Hctor;
    try discriminate.
  destruct (add_record_Ok _ _ _ Hrun) as (Hpol & Hrec & Hsrc & Hvalid).
  destruct (tokens_touch_all body_columns w) as (Hcur & Htag & Hgroup & _).
  rewrite state_touch_all in Hrec, Hsrc, Hvalid.
  repeat (split; [assumption|]).
  split; [reflexivity|].
  split; [apply Z.mod_pos_bound, Z.pow_pos_nonneg; lia|].
  rewrite Hpol. repeat (split; [assumption|]).
  split.
  - intros col. rewrite (column_group_same_policy col _ _ Hpol).
    apply column_group_touch_all.
  - intros col. apply touch_all_adds_keys.
Qed.

(** X9. When [handle_body_line] throws, no record was appended and the
    parsing state, the token buffer, the type tag, the group and every
    column group are as before; the exception is never a
    [std::invalid_argument]. *)
Theorem handle_body_line_throws w e w' :
  handle_body_line w = Throw e w' ->
  (forall what, e <> InvalidArgument what) /\
  state w' = state w /\
  m_current_token (policy w') = m_current_token (policy w) /\
  m_line_typeid (policy w') = m_line_typeid (policy w) /\
  m_grouped_tokens (policy w') = m_grouped_tokens (policy w) /\
  (forall col, column_group col w' = column_group col w).
Proof.
  intros Hrun.
  destruct (handle_body_line_cases w)
    as [Hu|[(e0 & Hthrow & Hkind)|
            (pos_token & n & qual_token & q & chrom & ref & _ & _ & _ & _
             & _ & _ & Hbuild)]];
    [congruence| |].
  - rewrite Hthrow in Hrun. injection Hrun as <- <-.
    repeat split; first [exact Hkind|reflexivity].
  - rewrite Hbuild, build_record_run in Hrun.
    destruct (tokens_touch_all body_columns w) as (Hcur & Htag & Hgroup & _).
    destruct (Record_ctor _) as [[what|what|what]|]; try discriminate;
      destruct (Throw_inj _ _ _ _ Hrun) as [<- <-];
      (split; [discriminate|]);
      (split; [apply state_touch_all|]);
      repeat (split; [assumption|]);
      intros col; apply column_group_touch_all.
Qed.

(** ** What the INFO mapping holds *)

Lemma occurs_before sep s : occurs sep (before sep s) = false.
Proof.
  induction s as [|c rest IH]; simpl; [reflexivity|].
  destruct (Ascii.eqb c sep) eqn:Hc; [reflexivity|].
  simpl. rewrite Hc, IH. reflexivity.
Qed.

Lemma info_entry_no_sep field :
  occurs "=" (fst (info_entry field)) = false /\
  occurs "=" (snd (info_entry field)) = false.
Proof.
  unfold info_entry. simpl. split; [apply occurs_before|].
  destruct (after "=" field); [apply occurs_before|reflexivity].
Qed.

Lemma first_write_Some k v entries :
  first_write k entries = Some v -> (k, v) ∈ entries.
Proof.
  induction entries as [|[k' v'] rest IH]; simpl; [discriminate|].
  case_decide as Heq.
  - intros [= <-]. subst k'. apply elem_of_cons. left. reflexivity.
  - intros H. apply elem_of_cons. right. apply IH, H.
Qed.

Lemma first_write_key k v (entries : list (string * string)) :
  (k, v) ∈ entries -> is_Some (first_write k entries).
Proof.
  induction entries as [|[k' v'] rest IH]; intros Hin.
  - inversion Hin.
  - simpl. case_decide as Heq; [eauto|].
    apply elem_of_cons in Hin as [Hhead|Hin]; [congruence|].
    apply IH, Hin.
Qed.

(** X10. The INFO mapping the loop builds: every key and every value is
    free of [=]; every entry comes from one of the subtokens; and no
    subtoken is lost without a trace, the text before its first [=] being
    a key of the mapping. *)
Theorem info_loop_mapping fields w :
  exists info,
    info_loop fields ∅ w = Ok info w /\
    (forall k v, info !! k = Some v ->
       occurs "=" k = false /\ occurs "=" v = false /\
       exists field, field ∈ fields /\ info_entry field = (k, v)) /\
    (forall field, field ∈ fields -> is_Some (info !! before "=" field)).
Proof.
  exists (info_fold fields ∅). split; [apply info_loop_run|]. split.
  - intros k v Hkv.
    rewrite lookup_info_fold, lookup_empty in Hkv.
    apply first_write_Some, list_elem_of_fmap in Hkv
      as (field & Hentry & Hin).
    pose proof (info_entry_no_sep field) as [Hk Hv].
    rewrite <- Hentry in Hk, Hv. simpl in Hk, Hv.
    split; [exact Hk|]. split; [exact Hv|].
    exists field. split; [exact Hin|]. symmetry. exact Hentry.
  - intros field Hin. rewrite lookup_info_fold, lookup_empty.
    apply (first_write_key _ (snd (info_entry field))).
    apply list_elem_of_fmap. exists field. split; [|exact Hin].
    reflexivity.
Qed.

(** ** Whole columns and whole body lines *)

Lemma column_events_run n g w :
  m_grouped_tokens (policy w) = [] ->
  store_events (column_events n g) w
  = handle_column_end n
      (with_tokens (List.last g (m_current_token (policy w))) g w).
Proof.
  intros Hgroup. unfold column_events.
  assert (Hpush : pushes TokenEnd) by (left; reflexivity).
  rewrite (store_events_Ok _ _ _ _ (pushed_tokens_run TokenEnd g w Hpush)).
  rewrite Hgroup, app_nil_l, store_events_last. reflexivity.
Qed.

Lemma column_name_sample n : 10 <= n -> column_name n = None.
Proof.
  intros Hn. destruct (column_name n) as [name|] eqn:Hname; [|reflexivity].
  assert (is_Some (column_name n)) as Hsome by eauto.
  apply column_name_range in Hsome. lia.
Qed.

Lemma sample_columns_run cols :
  forall n w,
    10 <= n ->
    m_grouped_tokens (policy w) = [] ->
    exists w',
      store_events (sample_columns_events n cols) w = Ok tt w' /\
      column_group "SAMPLES" w'
      = (column_group "SAMPLES" w ++ map fst cols)%list /\
      m_grouped_tokens (policy w') = [] /\
      (forall k, k <> "SAMPLES" ->
         m_line_tokens (policy w') !! k = m_line_tokens (policy w) !! k) /\
      m_line_typeid (policy w') = m_line_typeid (policy w) /\
      state w' = state w /\
      diagnostics w' = diagnostics w.
Proof.
  induction cols as [|[first others] rest IH]; intros n w Hn Hgroup.
  - exists w. rewrite app_nil_r. repeat split; first [reflexivity|assumption].
  - change (sample_columns_events n ((first, others) :: rest))
      with (column_events n (first :: others)
            ++ sample_columns_events (n + 1) rest)%list.
    pose proof (column_events_run n (first :: others) w Hgroup) as Hcol.
    rewrite (handle_column_end_sample n
               (with_tokens
                  (List.last (first :: others) (m_current_token (policy w)))
                  (first :: others) w)
               first others (column_name_sample n Hn) eq_refl) in Hcol.
    rewrite (store_events_Ok _ _ _ _ Hcol).
    match type of Hcol with _ = Ok tt ?x => set (w1 := x) in * end.
    destruct (IH (n + 1) w1 ltac:(lia) eq_refl)
      as (w' & Hrun & Hsamples & Hempty & Hother & Htag & Hstate & Hdiag).
    exists w'. split; [exact Hrun|].
    split.
    { rewrite Hsamples. unfold w1, column_group, with_column, with_tokens.
      cbn [policy m_line_tokens]. rewrite lookup_insert_eq.
      simpl. rewrite <- app_assoc. reflexivity. }
    split; [exact Hempty|].
    split.
    { intros k Hk. rewrite (Hother k Hk). unfold w1, with_column, with_tokens.
      cbn [policy m_line_tokens]. apply lookup_insert_ne. congruence. }
    split; [rewrite Htag; reflexivity|].
    split; [rewrite Hstate; reflexivity|rewrite Hdiag; reflexivity].
Qed.

(** X11. Sample columns read one after the other, whatever their
    indices from 10 on and however many tokens each has, add one string
    per column to the SAMPLES list, the first token of the column, in
    column order after what the list held; the other columns, the type
    tag and the parsing state are untouched and the group ends empty. *)
Theorem sample_columns_accumulate n cols w :
  10 <= n ->
  m_grouped_tokens (policy w) = [] ->
  exists w',
    store_events (sample_columns_events n cols) w = Ok tt w' /\
    column_group "SAMPLES" w'
    = (column_group "SAMPLES" w ++ map fst cols)%list /\
    m_grouped_tokens (policy w') = [] /\
    (forall k, k <> "SAMPLES" ->
       m_line_tokens (policy w') !! k = m_line_tokens (policy w) !! k) /\
    m_line_typeid (policy w') = m_line_typeid (policy w) /\
    state w' = state w.
Proof.
  intros Hn Hgroup.
  destruct (sample_columns_run cols n w Hn Hgroup)
    as (w' & Hrun & Hsamples & Hempty & Hother & Htag & Hstate & _).
  exists w'. repeat (split; [assumption|]). exact Hstate.
Qed.

Lemma fixed_column_step n name g w :
  column_name n = Some name ->
  m_grouped_tokens (policy w) = [] ->
  exists w',
    store_events (column_events n g) w = Ok tt w' /\
    m_grouped_tokens (policy w') = [] /\
    m_line_tokens (policy w') = <[name := g]> (m_line_tokens (policy w)) /\
    m_line_typeid (policy w') = m_line_typeid (policy w) /\
    state w' = state w /\
    diagnostics w' = diagnostics w.
Proof.
  intros Hname Hgroup. eexists. split.
  - rewrite (column_events_run n g w Hgroup).
    apply (handle_column_end_fixed _ _ _ Hname).
  - repeat split; reflexivity.
Qed.

Lemma fixed_columns_run chrom pos id ref alt qual filter info fmt w :
  m_grouped_tokens (policy w) = [] ->
  exists w',
    store_events
      (fixed_columns_events chrom pos id ref alt qual filter info fmt) w
    = Ok tt w' /\
    m_grouped_tokens (policy w') = [] /\
    m_line_tokens (policy w')
    = fixed_map chrom pos id ref alt qual filter info fmt
        (m_line_tokens (policy w)) /\
    m_line_typeid (policy w') = m_line_typeid (policy w) /\
    state w' = state w /\
    diagnostics w' = diagnostics w.
Proof.
  intros Hgroup. unfold fixed_columns_events.
  destruct (fixed_column_step 1 "CHROM" chrom w eq_refl Hgroup)
    as (w1 & Hrun1 & Hg1 & Hm1 & Ht1 & Hs1 & Hd1).
  destruct (fixed_column_step 2 "POS" pos w1 eq_refl Hg1)
    as (w2 & Hrun2 & Hg2 & Hm2 & Ht2 & Hs2 & Hd2).
  destruct (fixed_column_step 3 "ID" id w2 eq_refl Hg2)
    as (w3 & Hrun3 & Hg3 & Hm3 & Ht3 & Hs3 & Hd3).
  destruct (fixed_column_step 4 "REF" ref w3 eq_refl Hg3)
    as (w4 & Hrun4 & Hg4 & Hm4 & Ht4 & Hs4 & Hd4).
  destruct (fixed_column_step 5 "ALT" alt w4 eq_refl Hg4)
    as (w5 & Hrun5 & Hg5 & Hm5 & Ht5 & Hs5 & Hd5).
  destruct (fixed_column_step 6 "QUAL" qual w5 eq_refl Hg5)
    as (w6 & Hrun6 & Hg6 & Hm6 & Ht6 & Hs6 & Hd6).
  destruct (fixed_column_step 7 "FILTER" filter w6 eq_refl Hg6)
    as (w7 & Hrun7 & Hg7 & Hm7 & Ht7 & Hs7 & Hd7).
  destruct (fixed_column_step 8 "INFO" info w7 eq_refl Hg7)
    as (w8 & Hrun8 & Hg8 & Hm8 & Ht8 & Hs8 & Hd8).
  destruct (fixed_column_step 9 "FORMAT" fmt w8 eq_refl Hg8)
    as (w9 & Hrun9 & Hg9 & Hm9 & Ht9 & Hs9 & Hd9).
  exists w9.
  rewrite (store_events_Ok _ _ _ _ Hrun1), (store_events_Ok _ _ _ _ Hrun2),
    (store_events_Ok _ _ _ _ Hrun3), (store_events_Ok _ _ _ _ Hrun4),
    (store_events_Ok _ _ _ _ Hrun5), (store_events_Ok _ _ _ _ Hrun6),
    (store_events_Ok _ _ _ _ Hrun7), (store_events_Ok _ _ _ _ Hrun8).
  split; [exact Hrun9|]. split; [exact Hg9|]. unfold fixed_map.
  split; [congruence|]. split; [congruence|]. split; congruence.
Qed.

Ltac lookup_column :=
  unfold fixed_map;
  rewrite ?lookup_insert_ne by discriminate;
  rewrite ?lookup_insert_eq, ?lookup_empty; reflexivity.

Lemma body_line_run
    chrom chroms pos_token poss id ref refs alt qual_token quals filter info
    fmt sample_cols n q w :
  m_line_tokens (policy w) = ∅ ->
  m_grouped_tokens (policy w) = [] ->
  stoi pos_token = inl n ->
  parse_quality qual_token = inl q ->
  exists w1,
    store_events
      (body_line_events (chrom :: chroms) (pos_token :: poss) id
         (ref :: refs) alt (qual_token :: quals) filter info fmt
         sample_cols) w
    = build_record
        (mkRecord chrom (size_t_of_int n) id ref alt q filter
           (info_fold info ∅) fmt (map fst sample_cols)) w1 /\
    state w1 = state w.
Proof.
  intros Hmap Hgroup Hstoi Hq. unfold body_line_events.
  destruct (fixed_columns_run (chrom :: chroms) (pos_token :: poss) id
              (ref :: refs) alt (qual_token :: quals) filter info fmt w
              Hgroup)
    as (w9 & Hrun9 & Hg9 & Hm9 & _ & Hs9 & _).
  rewrite Hmap in Hm9.
  rewrite (store_events_Ok _ _ _ _ Hrun9).
  destruct (sample_columns_run sample_cols 10 w9 ltac:(lia) Hg9)
    as (w' & Hrun & Hsamples & _ & Hother & _ & Hstate & _).
  rewrite (store_events_Ok _ _ _ _ Hrun), store_events_last.
  change (store_event BodyLine) with handle_body_line.
  assert (Hsamples' : column_group "SAMPLES" w' = map fst sample_cols).
  { rewrite Hsamples. unfold column_group. rewrite Hm9.
    replace (_ !! "SAMPLES") with (@None (list string)) by
      (symmetry; unfold fixed_map; lookup_column).
    reflexivity. }
  assert (Hfirst : forall k g,
            k <> "SAMPLES" ->
            fixed_map (chrom :: chroms) (pos_token :: poss) id (ref :: refs)
              alt (qual_token :: quals) filter info fmt ∅ !! k = Some g ->
            column_group k w' = g /\ first_token k w' = head g).
  { intros k g Hk Hg. unfold column_group, first_token.
    rewrite (Hother k Hk), Hm9, Hg. split; reflexivity. }
  destruct (Hfirst "POS" (pos_token :: poss)) as [_ Hpos];
    [discriminate|lookup_column|].
  destruct (Hfirst "QUAL" (qual_token :: quals)) as [_ Hqual];
    [discriminate|lookup_column|].
  destruct (Hfirst "CHROM" (chrom :: chroms)) as [_ Hchrom];
    [discriminate|lookup_column|].
  destruct (Hfirst "REF" (ref :: refs)) as [_ Href];
    [discriminate|lookup_column|].
  destruct (Hfirst "ID" id) as [Hid _]; [discriminate|lookup_column|].
  destruct (Hfirst "ALT" alt) as [Halt _]; [discriminate|lookup_column|].
  destruct (Hfirst "FILTER" filter) as [Hfilter _];
    [discriminate|lookup_column|].
  destruct (Hfirst "INFO" info) as [Hinfo _]; [discriminate|lookup_column|].
  destruct (Hfirst "FORMAT" fmt) as [Hfmt _]; [discriminate|lookup_column|].
  exists (touch_all body_columns w').
  split; [|rewrite state_touch_all, Hstate, Hs9; reflexivity].
  rewrite (handle_body_line_run w' pos_token n qual_token q chrom ref
             Hpos Hstoi Hqual Hq Hchrom Href).
  unfold body_record.
  rewrite Hid, Halt, Hfilter, Hinfo, Hfmt, Hsamples'. reflexivity.
Qed.

(** X12. A whole body line read into an empty column map: the nine
    fixed columns with their tokens, any number of sample columns, then
    the end of the line.  When the first POS token converts to [n] and
    the quality is [q], the Record handed to the constructor has the first
    CHROM and REF tokens, the cast position, the ID, ALT, FILTER and
    FORMAT groups whole, the INFO mapping of the INFO group, and one
    string per sample column, its first token. *)
Theorem body_line_builds
    chrom chroms pos_token poss id ref refs alt qual_token quals filter info
    fmt sample_cols n q w :
  m_line_tokens (policy w) = ∅ ->
  m_grouped_tokens (policy w) = [] ->
  stoi pos_token = inl n ->
  parse_quality qual_token = inl q ->
  exists w1,
    store_events
      (body_line_events (chrom :: chroms) (pos_token :: poss) id
         (ref :: refs) alt (qual_token :: quals) filter info fmt
         sample_cols) w
    = build_record
        (mkRecord chrom (size_t_of_int n) id ref alt q filter
           (info_fold info ∅) fmt (map fst sample_cols)) w1 /\
    state w1 = state w.
Proof. apply body_line_run. Qed.

(** ** Edge cases of the event order *)

(** X13. Right after a newline nothing is recorded: the end of a body
    line reads out of bounds, the end of a column does so exactly when it
    is a sample column, and the end of a metadata line does so when no
    type tag is pending, while under a pending tag it constructs a
    Structured entry with no pairs. *)
Theorem after_newline_edges n w :
  (handle_newline >> handle_body_line) w = Undefined /\
  ((handle_newline >> handle_column_end n) w = Undefined <->
   column_name n = None) /\
  (handle_newline >> handle_meta_line) w
  = (if decide (m_line_typeid (policy w) = "") then Undefined
     else build_meta (Structured (m_line_typeid (policy w)) ∅)
            (mkWorld (mkStore "" (m_line_typeid (policy w)) [] ∅)
               (state w) (diagnostics w))).
Proof.
  rewrite !bind_unfold, !handle_newline_run. cbv beta iota.
  split; [apply handle_body_line_no_position; reflexivity|].
  split.
  - rewrite handle_column_end_undefined. cbn [policy m_grouped_tokens].
    tauto.
  - rewrite handle_meta_line_cases. unfold meta_shape.
    cbn [policy m_line_typeid m_grouped_tokens].
    case_decide; reflexivity.
Qed.

(** X14. The file format token: whatever the buffer held, the token
    read after a begin is what [handle_fileformat] hands to
    [set_version]; the group is not touched. *)
Theorem fileformat_sets_version s w :
  store_events (capture s ++ [Fileformat]) w
  = set_version s (with_tokens s (m_grouped_tokens (policy w)) w).
Proof.
  rewrite (store_events_Ok _ _ _ _ (capture_run s w)), store_events_last.
  reflexivity.
Qed.

(** X15. The end of a token does not empty the buffer: when the next
    token is read without a begin, its characters continue the previous
    token, and the string pushed is the two run together. *)
Theorem token_without_begin a b w :
  store_events (token_events a ++ char_events b ++ [TokenEnd]) w
  = Ok tt (with_tokens (a +:+ b)
             (m_grouped_tokens (policy w) ++ [a; a +:+ b]) w).
Proof.
  assert (Hpush : pushes TokenEnd) by (left; reflexivity).
  rewrite (store_events_Ok _ _ _ _ (pushed_token_run TokenEnd a w Hpush)).
  rewrite (store_events_Ok _ _ _ _ (char_events_run b _)).
  rewrite store_events_last, (pushes_run _ _ Hpush).
  unfold with_tokens.
  cbn [policy state diagnostics m_current_token m_line_typeid
       m_grouped_tokens m_line_tokens].
  rewrite <- app_assoc. reflexivity.
Qed.

Lemma meta_pairs_events_with_run entries w :
  store_events (concat (map meta_pair_events_with entries)) w
  = Ok tt (with_tokens
             (List.last (map snd entries) (m_current_token (policy w)))
             (m_grouped_tokens (policy w) ++ flatten_pairs entries) w).
Proof.
  revert w. induction entries as [|p rest IH]; intros w.
  - destruct w as [[cur tid g lt] st dg]. unfold with_tokens. simpl.
    rewrite app_nil_r. reflexivity.
  - change (concat (map meta_pair_events_with (p :: rest)))
      with (MetaKeyWith (fst p)
            :: ((capture (snd p) ++ [MetaValue])
                ++ concat (map meta_pair_events_with rest)))%list.
    rewrite store_events_cons.
    change (store_event (MetaKeyWith (fst p)) w)
      with (Ok tt (with_tokens (m_current_token (policy w))
                     (m_grouped_tokens (policy w) ++ [fst p]) w)).
    cbv beta iota.
    assert (Hpush : pushes MetaValue) by (right; right; left; reflexivity).
    rewrite (store_events_Ok _ _ _ _
               (pushed_token_run MetaValue (snd p) _ Hpush)), IH.
    unfold with_tokens.
    cbn [policy state diagnostics m_current_token m_line_typeid
         m_grouped_tokens m_line_tokens].
    rewrite <- !app_assoc.
    change (map snd (p :: rest)) with (snd p :: map snd rest).
    rewrite last_cons_default. reflexivity.
Qed.

(** X16. The two-argument overloads: a structured metadata line whose
    type tag and keys are supplied by the caller instead of being read
    from the input constructs the same Structured entry, from the same
    group, as the line read token by token. *)
Theorem structured_line_with_builds tag entries w :
  m_grouped_tokens (policy w) = [] ->
  tag <> "" ->
  store_events (structured_line_events_with tag entries) w
  = build_meta (Structured tag (list_to_map (reverse entries)))
      (mkWorld (mkStore
                  (List.last (map snd entries) (m_current_token (policy w)))
                  tag (flatten_pairs entries) (m_line_tokens (policy w)))
         (state w) (diagnostics w)).
Proof.
  intros Hgroup Htag. unfold structured_line_events_with.
  rewrite store_events_cons.
  change (store_event (MetaTypeidWith tag) w)
    with (Ok tt (mkWorld (mkStore (m_current_token (policy w)) tag
                            (m_grouped_tokens (policy w))
                            (m_line_tokens (policy w)))
                   (state w) (diagnostics w))).
  cbv beta iota.
  rewrite (store_events_Ok _ _ _ _ (meta_pairs_events_with_run entries _)).
  unfold with_tokens.
  cbn [policy state diagnostics m_current_token m_line_typeid
       m_grouped_tokens m_line_tokens].
  rewrite Hgroup, app_nil_l, store_events_last.
  change (store_event MetaLine) with handle_meta_line.
  rewrite handle_meta_line_structured;
    cbn [policy m_line_typeid m_grouped_tokens].
  - rewrite pairs_flatten. reflexivity.
  - exact Htag.
  - intros Hone. pose proof (even_flatten entries) as Heven.
    rewrite Hone in Heven. discriminate.
  - apply even_flatten.
Qed.

(** ** Several lines in order *)

Lemma add_meta_Ok m w w' :
  add_meta m w = Ok tt w' ->
  policy w' = policy w /\
  meta_entries (source (state w'))
  = (meta_entries (source (state w)) ++ [m])%list /\
  records (state w') = records (state w).
Proof.
  unfold add_meta, modify_state, set_source. intros Hrun.
  assert (Hw : mkWorld (policy w)
                 (mkParsingState (n_lines (state w)) (n_columns (state w))
                    (n_batches (state w)) (cs (state w))
                    (m_is_valid (state w))
                    (mkSource (version (source (state w)))
                       (meta_entries (source (state w)) ++ [m])%list
                       (sample_names (source (state w))))
                    (records (state w)))
                 (diagnostics w) = w') by congruence.
  subst w'. repeat split; reflexivity.
Qed.

(** X17. Structured metadata lines read one after the other, each
    followed by a newline: when every line has a type tag and its
    constructor accepts it, the metadata of the Source grows by one entry
    per line, in the order of the lines, each with the pairs of its own
    line only; no record is added and the group ends empty. *)
Theorem meta_lines_in_order lines w :
  Forall (fun l => fst l <> "" /\ MetaEntry_ctor (meta_line_entry l) = None)
    lines ->
  m_grouped_tokens (policy w) = [] ->
  exists w',
    store_events (meta_lines_events lines) w = Ok tt w' /\
    meta_entries (source (state w'))
    = (meta_entries (source (state w)) ++ map meta_line_entry lines)%list /\
    records (state w') = records (state w) /\
    m_grouped_tokens (policy w') = [].
Proof.
  intros Hlines. revert w.
  induction Hlines as [|l rest [Htag Hctor] _ IH]; intros w Hgroup.
  - exists w. rewrite app_nil_r. repeat split; first [reflexivity|assumption].
  - change (meta_lines_events (l :: rest))
      with ((structured_line_events (fst l) (snd l) ++ [Newline])
            ++ meta_lines_events rest)%list.
    rewrite <- app_assoc.
    pose proof (structured_line_run (fst l) (snd l) w Hgroup Htag) as Hline.
    fold (meta_line_entry l) in Hline.
    rewrite (build_meta_accepted _ _ Hctor) in Hline.
    destruct (add_meta (meta_line_entry l) _) as [[] w1| |] eqn:Hadd;
      try (unfold add_meta, modify_state in Hadd; discriminate).
    destruct (add_meta_Ok _ _ _ Hadd) as (Hpol & Hmeta & Hrec).
    rewrite (store_events_Ok _ _ _ _ Hline).
    change ([Newline] ++ meta_lines_events rest)%list
      with (Newline :: meta_lines_events rest).
    rewrite store_events_cons.
    change (store_event Newline w1) with (handle_newline w1).
    rewrite handle_newline_run.
    destruct (IH (mkWorld (mkStore "" (m_line_typeid (policy w1)) [] ∅)
                    (state w1) (diagnostics w1)) eq_refl)
      as (w' & Hrun & Hmeta' & Hrec' & Hgroup').
    exists w'. split; [exact Hrun|].
    cbn [state] in Hmeta', Hrec'.
    rewrite Hmeta', Hmeta, Hrec', Hrec. cbn [state].
    rewrite <- app_assoc. repeat split; first [reflexivity|assumption].
Qed.

(** X18. Body lines read one after the other into an empty column map,
    each followed by a newline: when the position and the quality of
    every line convert and the constructor accepts its Record, the record
    sequence grows by one Record per line, in the order of the lines, each
    built from the tokens of its own line only; the Source is untouched
    and the column map and the group end empty. *)
Theorem body_lines_in_order lines rs w :
  Forall2 (fun l r => line_record l = Some r /\ Record_ctor r = None)
    lines rs ->
  m_line_tokens (policy w) = ∅ ->
  m_grouped_tokens (policy w) = [] ->
  exists w',
    store_events (body_lines_events lines) w = Ok tt w' /\
    records (state w') = (records (state w) ++ rs)%list /\
    source (state w') = source (state w) /\
    m_line_tokens (policy w') = ∅ /\
    m_grouped_tokens (policy w') = [].
Proof.
  intros Hlines. revert w.
  induction Hlines as [|l r lines rs [Hrecord Hctor] _ IH];
    intros w Hmap Hgroup.
  - exists w. rewrite app_nil_r. repeat split; first [reflexivity|assumption].
  - change (body_lines_events (l :: lines))
      with (line_events l ++ body_lines_events lines)%list.
    unfold line_events. rewrite <- app_assoc.
    unfold line_record in Hrecord.
    destruct (stoi (fst (pos_tokens l))) as [n|] eqn:Hstoi; [|discriminate].
    destruct (parse_quality (fst (qual_tokens l))) as [q|] eqn:Hq;
      [|discriminate].
    injection Hrecord as Hr.
    destruct (body_line_run (fst (chrom_tokens l)) (snd (chrom_tokens l))
                (fst (pos_tokens l)) (snd (pos_tokens l)) (id_tokens l)
                (fst (ref_tokens l)) (snd (ref_tokens l)) (alt_tokens l)
                (fst (qual_tokens l)) (snd (qual_tokens l))
                (filter_tokens l) (info_tokens l) (format_tokens l)
                (sample_tokens l) n q w Hmap Hgroup Hstoi Hq)
      as (w1 & Hline & Hstate).
    rewrite Hr in Hline.
    rewrite (build_record_accepted _ _ Hctor) in Hline.
    destruct (add_record r w1) as [[] w2| |] eqn:Hadd;
      try (unfold add_record, modify_state in Hadd; discriminate).
    destruct (add_record_Ok _ _ _ Hadd) as (_ & Hrec & Hsrc & _).
    unfold group_of.
    rewrite (store_events_Ok _ _ _ _ Hline).
    change ([Newline] ++ body_lines_events lines)%list
      with (Newline :: body_lines_events lines).
    rewrite store_events_cons.
    change (store_event Newline w2) with (handle_newline w2).
    rewrite handle_newline_run.
    destruct (IH (mkWorld (mkStore "" (m_line_typeid (policy w2)) [] ∅)
                    (state w2) (diagnostics w2)) eq_refl eq_refl)
      as (w' & Hrun & Hrec' & Hsrc' & Hmap' & Hgroup').
    exists w'. split; [exact Hrun|].
    cbn [state] in Hrec', Hsrc'.
    rewrite Hrec', Hrec, Hsrc', Hsrc, Hstate. rewrite <- app_assoc.
    repeat split; first [reflexivity|assumption].
Qed.

(** ** The end of a line consumes nothing *)

Lemma first_token_touch_all ks k w :
  first_token k (touch_all ks w) = first_token k w.
Proof.
  revert w. induction ks as [|k' ks IH]; intros w; [reflexivity|].
  simpl. rewrite IH. apply first_token_touch.
Qed.

Lemma body_record_same_policy w w' chrom n ref q :
  (forall col, column_group col w' = column_group col w) ->
  body_record w' chrom n ref q = body_record w chrom n ref q.
Proof. intros Hcol. unfold body_record. rewrite !Hcol. reflexivity. Qed.

(** X19. [handle_body_line] does not consume the columns it reads: when
    it has returned, a second end of line with no event in between
    returns too and appends the very same Record once more. *)
Theorem handle_body_line_repeats w w' :
  handle_body_line w = Ok tt w' ->
  exists r w'',
    records (state w') = (records (state w) ++ [r])%list /\
    handle_body_line w' = Ok tt w'' /\
    records (state w'') = (records (state w) ++ [r; r])%list.
Proof.
  intros Hrun.
  destruct (handle_body_line_cases w)
    as [Hu|[(e & Hthrow & _)|
            (pos_token & n & qual_token & q & chrom & ref & Hpos & Hstoi
             & Hqual & Hq & Hchrom & Href & Hbuild)]];
    [congruence..|].
  rewrite Hbuild, build_record_run in Hrun.
  destruct (Record_ctor _) as [[what|what|what]|] eqn:Hctor;
    try discriminate.
  destruct (add_record_Ok _ _ _ Hrun) as (Hpol & Hrec & _).
  rewrite state_touch_all in Hrec.
  assert (Hfirst : forall col, first_token col w' = first_token col w).
  { intros col. rewrite (first_token_same_policy col _ _ Hpol).
    apply first_token_touch_all. }
  assert (Hcol : forall col, column_group col w' = column_group col w).
  { intros col. rewrite (column_group_same_policy col _ _ Hpol).
    apply column_group_touch_all. }
  rewrite <- Hfirst in Hpos, Hqual, Hchrom, Href.
  pose proof (handle_body_line_run w' _ _ _ _ _ _
                Hpos Hstoi Hqual Hq Hchrom Href) as Hagain.
  rewrite (body_record_same_policy w w' _ _ _ _ Hcol) in Hagain.
  rewrite (build_record_accepted _ _ Hctor) in Hagain.
  destruct (add_record _ (touch_all body_columns w')) as [[] w''| |] eqn:Hadd;
    try (unfold add_record, modify_state in Hadd; discriminate).
  destruct (add_record_Ok _ _ _ Hadd) as (_ & Hrec' & _).
  rewrite state_touch_all, Hrec, <- app_assoc in Hrec'.
  eexists _, w''. split; [exact Hrec|]. split; [exact Hagain|exact Hrec'].
Qed.


End ValidatorFacts.

(** * The definitions at work on concrete lines *)

Section Evaluations.

#[local] Existing Instance lp64.
#[local] Existing Instance lenient.

Import Cxx.

Lemma handle_meta_line_odd_shape_dropped_witness :
  let w := world_of (mkStore "" "INFO" ["a"; "b"; "c"] ∅) in
  handle_meta_line w = Ok tt w /\
  run_action ReaderCfg (Emit MetaLine) w = Ok tt w.
Proof.
  apply (handle_meta_line_odd_shape_dropped
           (world_of (mkStore "" "INFO" ["a"; "b"; "c"] ∅))
           UseAbortErrorPolicy);
    [discriminate|simpl; lia|reflexivity].
Defined.

(** The type tag of an earlier line decides the shape of the next
    metadata line: after a newline, the events of a line [##x] without a
    type tag give a Scalar entry when the previous line had the tag INFO,
    and a Plain entry when it had none. *)
Lemma newline_keeps_type_tag :
  (exists w',
     (handle_newline >> store_events plain_meta_events)
       (world_of (mkStore "" "INFO" [] ∅)) = Ok tt w' /\
     meta_entries (source (state w')) = [Scalar "INFO" "x"]) /\
  (exists w',
     (handle_newline >> store_events plain_meta_events)
       (world_of blank_policy) = Ok tt w' /\
     meta_entries (source (state w')) = [Plain "x"]) /\
  ~ (forall p1 p2 s d es,
       observe ((handle_newline >> store_events es) (mkWorld p1 s d))
       = observe ((handle_newline >> store_events es) (mkWorld p2 s d))).
Proof.
  split; [eexists; split; reflexivity|].
  split; [eexists; split; reflexivity|].
  intros Hclaim.
  specialize (Hclaim (mkStore "" "INFO" [] ∅) blank_policy blank_state []
                plain_meta_events).
  cbv -[lp64] in Hclaim. discriminate Hclaim.
Qed.

Lemma handle_newline_clears_line_state_witness :
  handle_newline (world_of (mkStore "tok" "INFO" ["a"] {["POS" := ["1"]]}))
  = Ok tt (world_of (mkStore "" "INFO" [] ∅)) /\
  (handle_newline >> store_events plain_meta_events)
    (world_of (mkStore "tok" "INFO" ["a"] {["POS" := ["1"]]}))
  = (handle_newline >> store_events plain_meta_events)
      (world_of (mkStore "" "INFO" [] ∅)).
Proof.
  apply (handle_newline_clears_line_state
           (mkStore "tok" "INFO" ["a"] {["POS" := ["1"]]})
           (mkStore "" "INFO" [] ∅) blank_state [] plain_meta_events).
  reflexivity.
Defined.

Lemma handle_meta_line_shape_witness :
  let w := world_of (mkStore "" "INFO" ["ID"; "DP"; "ID"; "AF"] ∅) in
  exists kv,
    handle_meta_line w = build_meta (Structured "INFO" kv) w /\
    kv !! "ID" = Some "AF".
Proof.
  destruct (handle_meta_line_shape
              (world_of (mkStore "" "INFO" ["ID"; "DP"; "ID"; "AF"] ∅))
              (Structured "INFO"
                 (list_to_map (reverse (pairs ["ID"; "DP"; "ID"; "AF"]))))
              eq_refl) as (Hrun & _ & Hkv).
  eexists. split; [exact Hrun|].
  destruct (Hkv _ _ eq_refl) as [_ Hlast]. rewrite Hlast. reflexivity.
Defined.

Lemma handle_body_line_quality_token_witness :
  (strtof_converts "." = false /\
   exists r w',
     handle_body_line (line_of sample_line) = Ok tt w' /\
     records (state w') = [r] /\
     quality r = float_of_int 0) /\
  (stof "29.5" = inl (Binary32.Finite false 15466496 (-19)) /\
   exists r w',
     handle_body_line (line_of (with_group "QUAL" ["29.5"] sample_line))
     = Ok tt w' /\
     records (state w') = [r] /\
     quality r = Binary32.Finite false 15466496 (-19)).
Proof.
  split.
  - split; [reflexivity|].
    destruct (proj1 (handle_body_line_quality_token
                       (line_of sample_line) "100" 100 "." "1" "A"
                       eq_refl eq_refl eq_refl eq_refl eq_refl) eq_refl)
      as (_ & Hq & _ & Happend).
    destruct (Happend eq_refl) as (w' & Hrun & Hrec).
    eexists _, w'. split; [exact Hrun|]. split; [exact Hrec|exact Hq].
  - destruct (proj2 (handle_body_line_quality_token
                       (line_of (with_group "QUAL" ["29.5"] sample_line))
                       "100" 100 "29.5" "1" "A"
                       eq_refl eq_refl eq_refl eq_refl eq_refl)
                (Binary32.Finite false 15466496 (-19)) eq_refl eq_refl)
      as (Hstof & Hq & _ & Happend).
    split; [exact Hstof|].
    destruct (Happend eq_refl) as (w' & Hrun & Hrec).
    eexists _, w'. split; [exact Hrun|]. split; [exact Hrec|exact Hq].
Defined.

(** QUAL tokens that are not numbers, yet are not given quality 0: the
    trailing text of [12abc] is ignored and the quality is 12; the first
    three letters of [information] are read as infinity; and [1e40],
    which no [float] can hold, leaves [handle_body_line] as a
    [std::out_of_range]. *)
Lemma quality_token_not_a_number :
  (exists r w',
     handle_body_line (line_of (with_group "QUAL" ["12abc"] sample_line))
     = Ok tt w' /\
     records (state w') = [r] /\
     quality r = Binary32.Finite false 12582912 (-20) /\
     quality r <> float_of_int 0) /\
  (exists r w',
     handle_body_line
       (line_of (with_group "QUAL" ["information"] sample_line))
     = Ok tt w' /\
     records (state w') = [r] /\
     quality r = Binary32.Infinity false /\
     quality r <> float_of_int 0) /\
  (let w := line_of (with_group "QUAL" ["1e40"] sample_line) in
   handle_body_line w = Throw (OutOfRange "stof") w).
Proof.
  split; [|split].
  - pose proof (handle_body_line_run
                  (line_of (with_group "QUAL" ["12abc"] sample_line))
                  "100" 100 "12abc" (Binary32.Finite false 12582912 (-20))
                  "1" "A"
                  eq_refl eq_refl eq_refl eq_refl eq_refl eq_refl) as Hrun.
    rewrite build_record_accepted in Hrun by reflexivity.
    eexists _, _. split; [exact Hrun|]. split; [reflexivity|].
    split; [reflexivity|discriminate].
  - pose proof (handle_body_line_run
                  (line_of (with_group "QUAL" ["information"] sample_line))
                  "100" 100 "information" (Binary32.Infinity false)
                  "1" "A"
                  eq_refl eq_refl eq_refl eq_refl eq_refl eq_refl) as Hrun.
    rewrite build_record_accepted in Hrun by reflexivity.
    eexists _, _. split; [exact Hrun|]. split; [reflexivity|].
    split; [reflexivity|discriminate].
  - apply (handle_body_line_quality_error
             (line_of (with_group "QUAL" ["1e40"] sample_line))
             "100" 100 "1e40" (OutOfRange "stof")); reflexivity.
Qed.

Lemma handle_body_line_position_token_witness :
  (strtol_prefix "chr" = None /\
   let w := line_of (with_group "POS" ["chr"] sample_line) in
   handle_body_line w = Throw (ParsingError "stoi") w /\
   run_action FullValidatorCfg (Emit BodyLine) w
   = Throw (ParsingError "stoi") w) /\
  (strtol_prefix "12abc" = Some 12 /\
   let w := line_of (with_group "POS" ["12abc"] sample_line) in
   position (body_record w "1" 12 "A" (float_of_int 0)) = 12 /\
   handle_body_line w
   = build_record (body_record w "1" 12 "A" (float_of_int 0))
       (touch_all body_columns w)).
Proof.
  split.
  - split; [reflexivity|].
    destruct (proj1 (handle_body_line_position_token
                       (line_of (with_group "POS" ["chr"] sample_line))
                       "chr" UseReportErrorPolicy eq_refl) eq_refl)
      as (_ & Hrun & Haction).
    split; [exact Hrun|exact Haction].
  - split; [reflexivity|].
    assert (Hrange : INT_MIN <= 12 <= INT_MAX)
      by (vm_compute; split; congruence).
    destruct (proj2 (handle_body_line_position_token
                       (line_of (with_group "POS" ["12abc"] sample_line))
                       "12abc" UseReportErrorPolicy eq_refl)
                12 "." (float_of_int 0) "1" "A"
                eq_refl Hrange eq_refl eq_refl eq_refl eq_refl)
      as (_ & Hposition & Hrun).
    split; [rewrite Hposition; reflexivity|exact Hrun].
Defined.

(** POS tokens that are not valid integers, yet raise no [ParsingError]:
    [12abc] and [1.5] are converted from their leading digits and the
    Record is built with position 12 and 1; [99999999999], which no [int]
    can hold, leaves [handle_body_line] as a [std::out_of_range], which
    is not the [ParsingError] kind. *)
Lemma position_token_not_an_integer :
  (exists r w',
     handle_body_line (line_of (with_group "POS" ["12abc"] sample_line))
     = Ok tt w' /\
     records (state w') = [r] /\ position r = 12) /\
  (exists r w',
     handle_body_line (line_of (with_group "POS" ["1.5"] sample_line))
     = Ok tt w' /\
     records (state w') = [r] /\ position r = 1) /\
  (let w := line_of (with_group "POS" ["99999999999"] sample_line) in
   handle_body_line w = Throw (OutOfRange "stoi") w /\
   forall what w', handle_body_line w <> Throw (ParsingError what) w').
Proof.
  split; [|split].
  - pose proof (handle_body_line_run
                  (line_of (with_group "POS" ["12abc"] sample_line))
                  "12abc" 12 "." (float_of_int 0) "1" "A"
                  eq_refl eq_refl eq_refl eq_refl eq_refl eq_refl) as Hrun.
    rewrite build_record_accepted in Hrun by reflexivity.
    eexists _, _. split; [exact Hrun|]. split; reflexivity.
  - pose proof (handle_body_line_run
                  (line_of (with_group "POS" ["1.5"] sample_line))
                  "1.5" 1 "." (float_of_int 0) "1" "A"
                  eq_refl eq_refl eq_refl eq_refl eq_refl eq_refl) as Hrun.
    rewrite build_record_accepted in Hrun by reflexivity.
    eexists _, _. split; [exact Hrun|]. split; reflexivity.
  - assert (Hrun : handle_body_line
              (line_of (with_group "POS" ["99999999999"] sample_line))
            = Throw (OutOfRange "stoi")
                (line_of (with_group "POS" ["99999999999"] sample_line))).
    { apply (handle_body_line_position_error
               (line_of (with_group "POS" ["99999999999"] sample_line))
               "99999999999" (OutOfRange "stoi")); reflexivity. }
    split; [exact Hrun|].
    intros what w' Heq. rewrite Hrun in Heq. discriminate Heq.
Qed.

Lemma handle_body_line_negative_position_witness :
  let w := line_of (with_group "POS" ["-5"] sample_line) in
  stoi "-5" = inl (-5) /\
  exists r w',
    handle_body_line w = Ok tt w' /\
    records (state w') = [r] /\
    position r = 18446744073709551611.
Proof.
  assert (Hrange : INT_MIN <= -5 < 0) by (vm_compute; split; congruence).
  destruct (handle_body_line_negative_position
              (line_of (with_group "POS" ["-5"] sample_line))
              "-5" (-5) "." (float_of_int 0) "1" "A"
              eq_refl eq_refl Hrange eq_refl eq_refl eq_refl eq_refl)
    as (Hstoi & Hpos & _ & _ & _ & Happend).
  split; [exact Hstoi|].
  destruct (Happend eq_refl) as (w' & Hrun & Hrec).
  eexists _, w'. split; [exact Hrun|]. split; [exact Hrec|].
  rewrite Hpos. reflexivity.
Defined.

(** An INFO subtoken with two [=]: the value stored for [K] is [a], the
    text up to the second [=], not [a=b]. *)
Lemma info_value_stops_at_second_eq :
  let w := line_of (with_group "INFO" ["K=a=b"] sample_line) in
  first_eq_entry "K=a=b" = ("K", "a=b") /\
  exists r w',
    handle_body_line w = Ok tt w' /\
    records (state w') = [r] /\
    info r !! "K" = Some "a" /\
    info r !! "K" <> Some (snd (first_eq_entry "K=a=b")).
Proof.
  split; [reflexivity|].
  pose proof (handle_body_line_run
                (line_of (with_group "INFO" ["K=a=b"] sample_line))
                "100" 100 "." (float_of_int 0) "1" "A"
                eq_refl eq_refl eq_refl eq_refl eq_refl eq_refl) as Hrun.
  rewrite build_record_accepted in Hrun by reflexivity.
  eexists _, _. split; [exact Hrun|]. split; [reflexivity|].
  split; [reflexivity|]. vm_compute. discriminate.
Qed.

Lemma info_loop_entries_witness :
  info_loop ["DP"; "AF=0.5"; "K=a=b"; "DP=7"] ∅ (line_of sample_line)
  = Ok (info_fold ["DP"; "AF=0.5"; "K=a=b"; "DP=7"] ∅) (line_of sample_line)
  /\ info_fold ["DP"; "AF=0.5"; "K=a=b"; "DP=7"] ∅ !! "DP" = Some ""
  /\ info_entry "AF=0.5" = ("AF", "0.5")
  /\ info_entry "K=a=b" = ("K", "a").
Proof.
  destruct (info_loop_entries ["DP"; "AF=0.5"; "K=a=b"; "DP=7"]
              (line_of sample_line))
    as (Hrun & Hlookup & _ & Hone & Htwo).
  split; [exact Hrun|]. split; [rewrite Hlookup; reflexivity|].
  split; [apply (Hone "AF=0.5" "0.5"); reflexivity|].
  apply (Htwo "K=a=b" "a=b" "b"); reflexivity.
Defined.

(** A sample column captured as two tokens: only the first is appended
    to SAMPLES, which is not the text of the column for any sub-delimiter;
    and a sample column with no token is an out-of-bounds read. *)
Lemma sample_column_first_token_only :
  (exists w',
     handle_column_end 10 (world_of (mkStore "" "" ["0|1"; "35"] ∅))
     = Ok tt w' /\
     m_line_tokens (policy w') !! "SAMPLES" = Some ["0|1"]) /\
  (forall sep, column_text sep ["0|1"; "35"] <> "0|1") /\
  handle_column_end 10 (world_of blank_policy) = Undefined.
Proof.
  split; [eexists; split; reflexivity|].
  split; [|reflexivity].
  intros sep Heq. unfold column_text in Heq. simpl in Heq.
  injection Heq as Heq. destruct sep; discriminate Heq.
Qed.

Lemma handle_column_end_routes_witness :
  handle_column_end 2 (world_of (mkStore "" "" ["100"] ∅))
  = Ok tt (world_of (mkStore "" "" [] {["POS" := ["100"]]})) /\
  handle_column_end 11
    (world_of (mkStore "" "" ["1|1"; "9"] {["SAMPLES" := ["0|1"]]}))
  = Ok tt (world_of (mkStore "" "" [] {["SAMPLES" := ["0|1"; "1|1"]]})).
Proof.
  split.
  - apply (proj1 (handle_column_end_routes 2
                    (world_of (mkStore "" "" ["100"] ∅))) "POS").
    reflexivity.
  - rewrite (proj1 (proj2 (handle_column_end_routes 11
               (world_of (mkStore "" "" ["1|1"; "9"]
                            {["SAMPLES" := ["0|1"]]}))))
               "1|1" ["9"] eq_refl eq_refl).
    cbv -[lp64]. reflexivity.
Defined.

(** A line for which only CHROM, POS, REF and QUAL were recorded: the
    nine-column precondition fails, yet no read is out of bounds and the
    Record is built. *)
Lemma four_columns_in_bounds :
  let w := line_of [("CHROM", ["1"]); ("POS", ["100"]); ("REF", ["A"]);
                    ("QUAL", ["."])] in
  columns_captured fixed_columns w = false /\
  handle_body_line w <> Undefined /\
  (exists w', handle_body_line w = Ok tt w') /\
  ~ (forall w0 : world,
       handle_body_line w0 <> Undefined ->
       columns_captured fixed_columns w0 = true).
Proof.
  pose proof (handle_body_line_run
                (line_of [("CHROM", ["1"]); ("POS", ["100"]); ("REF", ["A"]);
                          ("QUAL", ["."])])
                "100" 100 "." (float_of_int 0) "1" "A"
                eq_refl eq_refl eq_refl eq_refl eq_refl eq_refl) as Hrun.
  rewrite build_record_accepted in Hrun by reflexivity.
  assert (Hcols : columns_captured fixed_columns
                    (line_of [("CHROM", ["1"]); ("POS", ["100"]);
                              ("REF", ["A"]); ("QUAL", ["."])]) = false)
    by reflexivity.
  assert (Hdef : handle_body_line
            (line_of [("CHROM", ["1"]); ("POS", ["100"]); ("REF", ["A"]);
                      ("QUAL", ["."])]) <> Undefined).
  { rewrite Hrun. discriminate. }
  split; [exact Hcols|]. split; [exact Hdef|].
  split; [eexists; exact Hrun|].
  intros Hclaim. specialize (Hclaim _ Hdef). congruence.
Qed.

Lemma handle_body_line_bounds_witness :
  let w := line_of sample_line in
  columns_captured indexed_columns w = true /\
  handle_body_line w <> Undefined /\
  handle_body_line (line_of (with_group "REF" [] sample_line)) = Undefined.
Proof.
  split; [reflexivity|]. split.
  - apply (proj1 (proj2 (handle_body_line_bounds (line_of sample_line)))).
    reflexivity.
  - apply (proj1 (handle_body_line_bounds
                    (line_of (with_group "REF" [] sample_line)))).
    reflexivity.
Defined.

(** ** Whole lines on concrete input *)

Lemma handle_meta_line_returns_witness :
  exists w',
    handle_meta_line (world_of (mkStore "" "INFO" ["ID"; "DP"] ∅))
    = Ok tt w' /\
    policy w' = mkStore "" "INFO" ["ID"; "DP"] ∅ /\
    meta_entries (source (state w'))
    = [Structured "INFO" (list_to_map [("ID", "DP")])].
Proof.
  eexists. split; [reflexivity|].
  match goal with
  | |- policy ?W = _ /\ _ =>
      assert (Hrun : handle_meta_line
                       (world_of (mkStore "" "INFO" ["ID"; "DP"] ∅))
                     = Ok tt W) by reflexivity;
      destruct (handle_meta_line_returns _ W Hrun)
        as (Hpol & _ & _ & _ & _ & Hmeta)
  end.
  split; [exact Hpol|exact Hmeta].
Defined.

Lemma handle_meta_line_throws_witness :
  @handle_meta_line lp64 strict (world_of (mkStore "" "" [""] ∅))
  = Throw (ParsingError "empty value") (world_of (mkStore "" "" [""] ∅)) /\
  forall what, ParsingError "empty value" <> InvalidArgument what.
Proof.
  split; [reflexivity|].
  apply (proj1 (proj2 (@handle_meta_line_throws lp64 strict
                         (world_of (mkStore "" "" [""] ∅))
                         (ParsingError "empty value")
                         (world_of (mkStore "" "" [""] ∅)) eq_refl))).
Defined.

Lemma structured_line_builds_witness :
  exists w1,
    store_events
      (structured_line_events "INFO" [("ID", "DP"); ("Number", "1")])
      (world_of blank_policy)
    = build_meta
        (Structured "INFO"
           (list_to_map (reverse [("ID", "DP"); ("Number", "1")]))) w1.
Proof.
  eexists.
  apply (structured_line_builds "INFO" [("ID", "DP"); ("Number", "1")]
           (world_of blank_policy)); [reflexivity|discriminate].
Defined.

Lemma structured_line_with_builds_witness :
  exists w1,
    store_events
      (structured_line_events_with "INFO" [("ID", "DP"); ("Number", "1")])
      (world_of blank_policy)
    = build_meta
        (Structured "INFO"
           (list_to_map (reverse [("ID", "DP"); ("Number", "1")]))) w1.
Proof.
  eexists.
  apply (structured_line_with_builds "INFO"
           [("ID", "DP"); ("Number", "1")] (world_of blank_policy));
    [reflexivity|discriminate].
Defined.

Lemma value_line_builds_witness :
  store_events (value_line_events "GRCh37")
    (world_of (mkStore "" "reference" [] ∅))
  = build_meta (Scalar "reference" "GRCh37")
      (world_of (mkStore "GRCh37" "reference" ["GRCh37"] ∅)).
Proof.
  apply (value_line_builds "GRCh37"
           (world_of (mkStore "" "reference" [] ∅))).
  reflexivity.
Defined.

Lemma header_line_sets_samples_witness :
  exists w',
    store_events (header_line_events ["NA001"; "NA002"])
      (world_of blank_policy) = Ok tt w' /\
    sample_names (source (state w')) = ["NA001"; "NA002"].
Proof.
  rewrite (header_line_sets_samples ["NA001"; "NA002"]
             (world_of blank_policy) eq_refl).
  eexists. split; reflexivity.
Defined.

Lemma handle_body_line_returns_witness :
  exists w',
    handle_body_line (line_of sample_line) = Ok tt w' /\
    map (fun r => (chromosome r, position r)) (records (state w'))
    = [("1", 100)].
Proof.
  eexists. split; [reflexivity|].
  match goal with
  | |- context [state ?W] =>
      assert (Hrun : handle_body_line (line_of sample_line) = Ok tt W)
        by reflexivity;
      destruct (handle_body_line_returns (line_of sample_line) W Hrun)
        as (pos_token & n & qual_token & chrom & ref & q & Hpos & Hstoi & _
            & _ & Hchrom & _ & _ & _ & Hrec & _)
  end.
  rewrite Hrec.
  injection Hpos as <-. injection Hchrom as <-. injection Hstoi as <-.
  reflexivity.
Defined.

Lemma handle_body_line_throws_witness :
  let w := line_of (with_group "POS" ["chr"] sample_line) in
  handle_body_line w = Throw (ParsingError "stoi") w /\
  state w = blank_state.
Proof.
  split; [reflexivity|].
  apply (proj1 (proj2 (handle_body_line_throws
                         (line_of (with_group "POS" ["chr"] sample_line))
                         (ParsingError "stoi")
                         (line_of (with_group "POS" ["chr"] sample_line))
                         eq_refl))).
Defined.

Lemma sample_columns_accumulate_witness :
  exists w',
    store_events
      (sample_columns_events 10 [("0|1", ["35"]); ("1|1", [])])
      (world_of blank_policy) = Ok tt w' /\
    column_group "SAMPLES" w' = ["0|1"; "1|1"].
Proof.
  destruct (sample_columns_accumulate 10 [("0|1", ["35"]); ("1|1", [])]
              (world_of blank_policy) (Z.le_refl 10) eq_refl)
    as (w' & Hrun & Hsamples & _).
  exists w'. split; [exact Hrun|]. rewrite Hsamples. reflexivity.
Defined.

Lemma body_line_builds_witness :
  exists w1,
    store_events
      (body_line_events ["1"] ["100"] ["rs1"] ["A"] ["T"] ["."] ["PASS"]
         ["DP=10"; "DB"] ["GT"] [("0|1", []); ("1|1", [])])
      (world_of blank_policy)
    = build_record
        (mkRecord "1" 100 ["rs1"] "A" ["T"] (float_of_int 0) ["PASS"]
           (info_fold ["DP=10"; "DB"] ∅) ["GT"] ["0|1"; "1|1"]) w1 /\
    state w1 = blank_state.
Proof.
  apply (body_line_builds "1" [] "100" [] ["rs1"] "A" [] ["T"] "." []
           ["PASS"] ["DP=10"; "DB"] ["GT"] [("0|1", []); ("1|1", [])]
           100 (float_of_int 0) (world_of blank_policy));
    reflexivity.
Defined.

Lemma meta_lines_in_order_witness :
  exists w',
    store_events
      (meta_lines_events
         [("INFO", [("ID", "DP"); ("Number", "1")]);
          ("FILTER", [("ID", "q10")])])
      (world_of blank_policy) = Ok tt w' /\
    meta_entries (source (state w'))
    = [Structured "INFO" (list_to_map [("Number", "1"); ("ID", "DP")]);
       Structured "FILTER" (list_to_map [("ID", "q10")])].
Proof.
  assert (Hlines :
    Forall (fun l => fst l <> "" /\ MetaEntry_ctor (meta_line_entry l) = None)
      [("INFO", [("ID", "DP"); ("Number", "1")]);
       ("FILTER", [("ID", "q10")])]).
  { repeat (constructor; [split; [discriminate|reflexivity]|]).
    constructor. }
  destruct (meta_lines_in_order _ (world_of blank_policy) Hlines eq_refl)
    as (w' & Hrun & Hmeta & _).
  exists w'. split; [exact Hrun|exact Hmeta].
Defined.

Lemma body_lines_in_order_witness :
  exists w',
    store_events
      (body_lines_events
         [mkBodyLine ("1", []) ("100", []) ["rs1"] ("A", []) ["T"] (".", [])
            ["PASS"] ["DP=10"] ["GT"] [("0|1", [])];
          mkBodyLine ("1", []) ("250", []) [] ("G", []) ["C"; "T"] (".", [])
            [] ["DB"] ["GT"] [("1|1", [])]])
      (world_of blank_policy) = Ok tt w' /\
    map (fun r => (chromosome r, position r, samples r)) (records (state w'))
    = [("1", 100, ["0|1"]); ("1", 250, ["1|1"])].
Proof.
  assert (Hlines :
    Forall2 (fun l r => line_record l = Some r /\ Record_ctor r = None)
      [mkBodyLine ("1", []) ("100", []) ["rs1"] ("A", []) ["T"] (".", [])
         ["PASS"] ["DP=10"] ["GT"] [("0|1", [])];
       mkBodyLine ("1", []) ("250", []) [] ("G", []) ["C"; "T"] (".", [])
         [] ["DB"] ["GT"] [("1|1", [])]]
      [mkRecord "1" 100 ["rs1"] "A" ["T"] (float_of_int 0) ["PASS"]
         (info_fold ["DP=10"] ∅) ["GT"] ["0|1"];
       mkRecord "1" 250 [] "G" ["C"; "T"] (float_of_int 0) []
         (info_fold ["DB"] ∅) ["GT"] ["1|1"]]).
  { repeat (constructor; [split; reflexivity|]). constructor. }
  destruct (body_lines_in_order _ _ (world_of blank_policy) Hlines
              eq_refl eq_refl)
    as (w' & Hrun & Hrec & _).
  exists w'. split; [exact Hrun|]. rewrite Hrec. reflexivity.
Defined.

Lemma handle_body_line_repeats_witness :
  exists w' w'',
    handle_body_line (line_of sample_line) = Ok tt w' /\
    handle_body_line w' = Ok tt w'' /\
    length (records (state w'')) = 2%nat.
Proof.
  eexists. 
  assert (Hrun : handle_body_line (line_of sample_line)
                 = Ok tt (mkWorld (policy (line_of sample_line))
                            (mkParsingState 0 0 0 0 true (mkSource "" [] [])
                               [body_record (line_of sample_line) "1" 100 "A"
                                  (float_of_int 0)])
                            [])) by reflexivity.
  destruct (handle_body_line_repeats (line_of sample_line) _ Hrun)
    as (r & w'' & _ & Hagain & Hrec).
  exists w''. split; [exact Hrun|]. split; [exact Hagain|].
  rewrite Hrec. reflexivity.
Defined.


End Evaluations.
